(** * Change & Scope Engine: scope validation, scope comparison, asset diffing

    A shallow embedding of the decision core of the bug-bounty automation
    platform:

    - [src/scope/base.py]       ScopeData, calculate_checksum, normalize_scope_item
    - [src/scope/validator.py]  ScopeValidator
    - [src/scope/comparator.py] ScopeComparator
    - [src/core/diff_engine.py] DiffEngine
    - [src/db/repositories.py]  AssetRepository.create_or_update
    - [src/db/models.py]        Asset (columns and their onupdate rules)

    Python [str] values are modelled by [string]; a character is read as the
    code point of the same number, so the model covers the strings whose
    code points are below 256.  Python [set]s of strings are [gset string];
    the order in which Python iterates over a set is unspecified, the model
    iterates over [elements]. *)

From Stdlib Require Import ZArith String Ascii List Lia Bool.
From stdpp Require Import base decidable option list strings gmap sets sorting pretty.

Local Open Scope string_scope.

(** ** Python string operations *)

Module PyStr.

Definition code (c : ascii) : N := N_of_ascii c.

Definition between (lo hi n : N) : bool := ((lo <=? n) && (n <=? hi))%N.

(** [str.lower] on one code point: A-Z, and the upper-case letters of the
    Latin-1 supplement (U+00C0..U+00DE without the multiplication sign). *)
Definition lower_char (c : ascii) : ascii :=
  let n := code c in
  if between 65 90 n || (between 192 222 n && negb (n =? 215)%N)
  then ascii_of_N (n + 32) else c.

(** [str.isspace] on one code point. *)
Definition isspace (c : ascii) : bool :=
  let n := code c in
  between 9 13 n || between 28 32 n || (n =? 133)%N || (n =? 160)%N.

Definition isdigit (c : ascii) : bool := between 48 57 (code c).

Fixpoint lower (s : string) : string :=
  match s with
  | EmptyString => EmptyString
  | String c r => String (lower_char c) (lower r)
  end.

Fixpoint lstrip_by (p : ascii → bool) (s : string) : string :=
  match s with
  | EmptyString => EmptyString
  | String c r => if p c then lstrip_by p r else s
  end.

Fixpoint rstrip_by (p : ascii → bool) (s : string) : string :=
  match s with
  | EmptyString => EmptyString
  | String c r =>
      match rstrip_by p r with
      | EmptyString => if p c then EmptyString else String c EmptyString
      | r' => String c r'
      end
  end.

(** [s.strip()] *)
Definition strip (s : string) : string := rstrip_by isspace (lstrip_by isspace s).

(** [s.rstrip(chars)] for a one-character [chars] *)
Definition rstrip_char (ch : ascii) (s : string) : string :=
  rstrip_by (λ c, bool_decide (c = ch)) s.

(** [ch in s] for a one-character [ch] *)
Fixpoint contains_char (ch : ascii) (s : string) : bool :=
  match s with
  | EmptyString => false
  | String c r => bool_decide (c = ch) || contains_char ch r
  end.

Fixpoint startswith (pre s : string) : bool :=
  match pre, s with
  | EmptyString, _ => true
  | String a pre', String b s' => bool_decide (a = b) && startswith pre' s'
  | String _ _, EmptyString => false
  end.

(** [s.endswith(suf)] *)
Fixpoint endswith (s suf : string) : bool :=
  bool_decide (s = suf) ||
  match s with
  | EmptyString => false
  | String _ r => endswith r suf
  end.

(** [s.replace(old, new)] for a non-empty [old]: every non-overlapping
    occurrence, scanning from the left.  [skip] counts the characters of
    an occurrence that has just been replaced and is still to be passed. *)
Fixpoint replace_go (old new : string) (skip : nat) (s : string) : string :=
  match s with
  | EmptyString => EmptyString
  | String c r =>
      match skip with
      | S k => replace_go old new k r
      | O =>
          if startswith old s
          then new +:+ replace_go old new (String.length old - 1) r
          else String c (replace_go old new 0 r)
      end
  end.

Definition replace (old new s : string) : string := replace_go old new 0 s.

(** [sep.join(parts)] *)
Fixpoint join (sep : string) (parts : list string) : string :=
  match parts with
  | [] => EmptyString
  | [p] => p
  | p :: rest => p +:+ sep +:+ join sep rest
  end.

(** [sorted(xs)] on strings: ascending code-point order. *)
Definition sorted (xs : list string) : list string := merge_sort String.le xs.

Definition newline : ascii := ascii_of_N 10.

End PyStr.

(** ** src/scope/base.py *)

(** [ScopeData]: the two rule lists and the identifying metadata. *)
Record ScopeData := {
  in_scope : list string;
  out_of_scope : list string;
  platform : string;
  program_handle : string;
  program_name : string;
  program_description : option string;
  program_url : option string;
  last_updated : option string
}.

(** [BaseScopeParser.normalize_scope_item] *)
Definition normalize_scope_item (item : string) : string :=
  let item := PyStr.replace "http://" EmptyString
                (PyStr.replace "https://" EmptyString item) in
  let item := PyStr.rstrip_char "/" item in
  PyStr.strip (PyStr.lower item).

(** [json.dumps] of a string, with the default [ensure_ascii=True]: the
    quote and the backslash are escaped, control characters and the code
    points from 127 up are written as escapes. *)
Module PyJson.

Definition quote : string := String (ascii_of_N 34) EmptyString.

Definition hex_digit (n : N) : ascii :=
  if (n <? 10)%N then ascii_of_N (48 + n) else ascii_of_N (87 + n).

Definition u_escape (n : N) : string :=
  "\u00" +:+ String (hex_digit (n / 16)) (String (hex_digit (n mod 16)) EmptyString).

Definition escape_char (c : ascii) : string :=
  let n := PyStr.code c in
  if (n =? 34)%N then String "\" quote else
  if (n =? 92)%N then "\\" else
  if (n =? 10)%N then "\n" else
  if (n =? 13)%N then "\r" else
  if (n =? 9)%N then "\t" else
  if (n =? 8)%N then "\b" else
  if (n =? 12)%N then "\f" else
  if (n <? 32)%N || (126 <? n)%N then u_escape n
  else String c EmptyString.

Fixpoint escape (s : string) : string :=
  match s with
  | EmptyString => EmptyString
  | String c r => escape_char c +:+ escape r
  end.

Definition dumps_str (s : string) : string := quote +:+ escape s +:+ quote.

Definition dumps_list (xs : list string) : string :=
  "[" +:+ PyStr.join ", " (dumps_str <$> xs) +:+ "]".

End PyJson.

(** [ScopeData.calculate_checksum].  [hashlib.sha256(..).hexdigest()] is
    the library's; it is a parameter of the model. *)
Section Checksum.
Variable sha256_hexdigest : string → string.

(** [json.dumps({"in_scope": .., "out_of_scope": ..}, sort_keys=True)] *)
Definition scope_json (ins outs : list string) : string :=
  "{" +:+ PyJson.dumps_str "in_scope" +:+ ": " +:+ PyJson.dumps_list ins +:+ ", "
      +:+ PyJson.dumps_str "out_of_scope" +:+ ": " +:+ PyJson.dumps_list outs +:+ "}".

Definition calculate_checksum (self : ScopeData) : string :=
  sha256_hexdigest
    (scope_json (PyStr.sorted (in_scope self)) (PyStr.sorted (out_of_scope self))).

(** [ScopeData.__str__] *)
Definition ScopeData_str (self : ScopeData) : string :=
  "ScopeData(" +:+ platform self +:+ "/" +:+ program_handle self +:+ ": "
    +:+ pretty (length (in_scope self)) +:+ " in scope, "
    +:+ pretty (length (out_of_scope self)) +:+ " out of scope)".

(** The methods of the class [ScopeData], by name.  The dataclass
    declares [calculate_checksum] and [__str__] and nothing else: looking
    up any other method name fails. *)
Definition ScopeData_method (name : string) : option (ScopeData → string) :=
  if bool_decide (name = "calculate_checksum") then Some calculate_checksum
  else if bool_decide (name = "__str__") then Some ScopeData_str
  else None.
End Checksum.

(** ** src/scope/validator.py *)

(** The part of Python's [ipaddress] module the validator calls.
    [ip_network s] is [ipaddress.ip_network(s, strict=False)] and
    [ip_address s] is [ipaddress.ip_address(s)], with [None] standing for
    the [ValueError] they raise; [ip_in ip net] is [ip in net]. *)
Class IpAddressLib := {
  ip_addr : Type;
  ip_net : Type;
  ip_address : string → option ip_addr;
  ip_network : string → option ip_net;
  ip_in : ip_addr → ip_net → bool
}.

(** The regular expressions [_categorize_rule] builds: the rule is escaped
    and every star becomes [.*], so the expression is a sequence of literal
    characters and [.*] items. *)
Inductive re_item :=
  | Lit (c : ascii)
  | DotStar.

Definition wildcard_regex (rule : string) : list re_item :=
  (λ c, if bool_decide (c = "*"%char) then DotStar else Lit c)
    <$> list_ascii_of_string rule.

(** [re.compile("^" + pattern + "$", re.IGNORECASE).match(s)]: a literal
    matches up to case, [.] matches any character but the line feed, and
    [$] matches at the end or before a final line feed. *)
Fixpoint pattern_match (p : list re_item) (s : string) : bool :=
  match p with
  | [] =>
      match s with
      | EmptyString => true
      | String c EmptyString => bool_decide (c = PyStr.newline)
      | _ => false
      end
  | Lit c :: p' =>
      match s with
      | String d s' =>
          bool_decide (PyStr.lower_char c = PyStr.lower_char d) && pattern_match p' s'
      | EmptyString => false
      end
  | DotStar :: p' =>
      (fix star (s : string) : bool :=
         pattern_match p' s ||
         match s with
         | String d s' => negb (bool_decide (d = PyStr.newline)) && star s'
         | EmptyString => false
         end) s
  end.

Module ValidationResult.
Record t := {
  asset : string;
  in_scope : bool;
  reason : string;
  matched_rule : option string
}.
End ValidationResult.

(** Number of leading decimal digits, and what follows them. *)
Fixpoint span_digits (s : string) : nat * string :=
  match s with
  | String c r =>
      if PyStr.isdigit c then let '(n, rest) := span_digits r in (S n, rest)
      else (0, s)
  | EmptyString => (0, EmptyString)
  end.

(** [\d{1,3}] *)
Definition octet (s : string) : option string :=
  let '(n, rest) := span_digits s in
  if ((1 <=? n) && (n <=? 3))%nat then Some rest else None.

(** [\.] *)
Definition dot (s : string) : option string :=
  match s with
  | String c r => if bool_decide (c = "."%char) then Some r else None
  | EmptyString => None
  end.

Fixpoint run_parsers (ps : list (string → option string)) (s : string)
  : option string :=
  match ps with
  | [] => Some s
  | p :: ps' => match p s with Some rest => run_parsers ps' rest | None => None end
  end.

(** [ScopeValidator._is_ip]: [^\d{1,3}\.\d{1,3}\.\d{1,3}\.\d{1,3}$] *)
Definition _is_ip (value : string) : bool :=
  match run_parsers [octet; dot; octet; dot; octet; dot; octet] value with
  | Some rest =>
      bool_decide (rest = EmptyString) ||
      bool_decide (rest = String PyStr.newline EmptyString)
  | None => false
  end.

(** [ScopeValidator._is_subdomain_of] *)
Definition _is_subdomain_of (subdomain domain : string) : bool :=
  if bool_decide (subdomain = domain) then false
  else PyStr.endswith subdomain ("." +:+ domain).

Section Validator.
Context `{IpAddressLib}.

(** The three buckets of one side of the scope. *)
Record Buckets := {
  patterns : list (string * list re_item);
  cidrs : list (string * ip_net);
  exact : gset string
}.

Definition no_buckets : Buckets := {| patterns := []; cidrs := []; exact := ∅ |}.

(** [ScopeValidator._categorize_rule] *)
Definition _categorize_rule (rule : string) (b : Buckets) : Buckets :=
  if PyStr.contains_char "*" rule then
    {| patterns := patterns b ++ [(rule, wildcard_regex rule)];
       cidrs := cidrs b; exact := exact b |}
  else if PyStr.contains_char "/" rule then
    match ip_network rule with
    | Some network =>
        {| patterns := patterns b; cidrs := cidrs b ++ [(rule, network)];
           exact := exact b |}
    | None => b
    end
  else
    {| patterns := patterns b; cidrs := cidrs b;
       exact := exact b ∪ {[ PyStr.lower rule ]} |}.

Record ScopeValidator := {
  scope_data : ScopeData;
  in_buckets : Buckets;
  out_buckets : Buckets
}.

Definition in_scope_patterns v := patterns (in_buckets v).
Definition in_scope_cidrs v := cidrs (in_buckets v).
Definition in_scope_exact v := exact (in_buckets v).
Definition out_scope_patterns v := patterns (out_buckets v).
Definition out_scope_cidrs v := cidrs (out_buckets v).
Definition out_scope_exact v := exact (out_buckets v).

(** [for item in items: self._categorize_rule(item, ...)] *)
Definition categorize_all (items : list string) : Buckets :=
  foldl (λ b item, _categorize_rule item b) no_buckets items.

(** [ScopeValidator.__init__] with [_prepare_patterns] *)
Definition new_ScopeValidator (sd : ScopeData) : ScopeValidator :=
  {| scope_data := sd;
     in_buckets := categorize_all (in_scope sd);
     out_buckets := categorize_all (out_of_scope sd) |}.

(** [for rule, pattern in ps: if pattern.match(s): return rule] *)
Fixpoint first_pattern (s : string) (ps : list (string * list re_item))
  : option string :=
  match ps with
  | [] => None
  | (rule, pattern) :: rest =>
      if pattern_match pattern s then Some rule else first_pattern s rest
  end.

(** [for rule, network in cs: if ip in network: return rule] *)
Fixpoint first_cidr (ip : ip_addr) (cs : list (string * ip_net)) : option string :=
  match cs with
  | [] => None
  | (rule, network) :: rest =>
      if ip_in ip network then Some rule else first_cidr ip rest
  end.

(** The guarded CIDR block: [if self._is_ip(s): try: ip = ip_address(s);
    for ...; except ValueError: pass]. *)
Definition cidr_block (s : string) (cs : list (string * ip_net)) : option string :=
  if _is_ip s then
    match ip_address s with
    | Some ip => first_cidr ip cs
    | None => None
    end
  else None.

(** [for in_scope_item in self.in_scope_exact: if _is_subdomain_of ...] *)
Definition first_parent (s : string) (ex : gset string) : option string :=
  snd <$> list_find (λ item, _is_subdomain_of s item = true) (elements ex).

(** [ScopeValidator.validate] *)
Definition validate (v : ScopeValidator) (asset : string) : ValidationResult.t :=
  let asset_lower := PyStr.strip (PyStr.lower asset) in
  let result ok why rule :=
    {| ValidationResult.asset := asset; ValidationResult.in_scope := ok;
       ValidationResult.reason := why; ValidationResult.matched_rule := rule |} in
  if bool_decide (asset_lower ∈ out_scope_exact v) then
    result false "Explicitly out of scope" (Some asset_lower)
  else match first_pattern asset_lower (out_scope_patterns v) with
  | Some rule => result false "Matches out-of-scope pattern" (Some rule)
  | None =>
  match cidr_block asset_lower (out_scope_cidrs v) with
  | Some rule => result false "In out-of-scope CIDR range" (Some rule)
  | None =>
  if bool_decide (asset_lower ∈ in_scope_exact v) then
    result true "Explicitly in scope" (Some asset_lower)
  else match first_pattern asset_lower (in_scope_patterns v) with
  | Some rule => result true "Matches in-scope pattern" (Some rule)
  | None =>
  match cidr_block asset_lower (in_scope_cidrs v) with
  | Some rule => result true "In in-scope CIDR range" (Some rule)
  | None =>
  match first_parent asset_lower (in_scope_exact v) with
  | Some item => result true "Subdomain of in-scope domain" (Some item)
  | None => result false "Not found in program scope" None
  end end end end end.

(** Whether one raw rule of a scope list decides a normalized candidate,
    following the bucket the rule is compiled into. *)
Definition rule_matches (rule candidate : string) : bool :=
  if PyStr.contains_char "*" rule then pattern_match (wildcard_regex rule) candidate
  else if PyStr.contains_char "/" rule then
    match ip_network rule, ip_address candidate with
    | Some network, Some ip => _is_ip candidate && ip_in ip network
    | _, _ => false
    end
  else bool_decide (candidate = PyStr.lower rule).

(** Where the entries of the compiled buckets come from: [b] holds the
    entries of [b0] and those the rules [items] compile to. *)
Definition from_rules (items : list string) (b0 b : Buckets) : Prop :=
  (∀ r p, (r, p) ∈ patterns b ↔
     (r, p) ∈ patterns b0
     ∨ (r ∈ items ∧ PyStr.contains_char "*" r = true ∧ p = wildcard_regex r))
  ∧ (∀ r n, (r, n) ∈ cidrs b ↔
     (r, n) ∈ cidrs b0
     ∨ (r ∈ items ∧ PyStr.contains_char "*" r = false
        ∧ PyStr.contains_char "/" r = true ∧ ip_network r = Some n))
  ∧ (∀ s, s ∈ exact b ↔
     s ∈ exact b0
     ∨ ∃ r, r ∈ items ∧ PyStr.contains_char "*" r = false
            ∧ PyStr.contains_char "/" r = false ∧ s = PyStr.lower r).

End Validator.

Arguments Buckets {_}.
Arguments ScopeValidator {_}.

(** An instance of the [ipaddress] interface on dotted-quad IPv4 text:
    addresses [a.b.c.d] with octets 0..255 written without leading zeros,
    networks [a.b.c.d/len] with [len] in 0..32 (host bits are masked off,
    as [strict=False] does) or a bare address.  Every other text is
    rejected. *)
Module IPv4.

Fixpoint split_on (ch : ascii) (s : string) : list string :=
  match s with
  | EmptyString => [EmptyString]
  | String c r =>
      if bool_decide (c = ch) then EmptyString :: split_on ch r
      else match split_on ch r with
           | w :: ws => String c w :: ws
           | [] => [String c EmptyString]
           end
  end.

Fixpoint digits_value (acc : N) (s : string) : option N :=
  match s with
  | EmptyString => Some acc
  | String c r =>
      if PyStr.isdigit c then digits_value (10 * acc + (PyStr.code c - 48))%N r
      else None
  end.

Definition parse_decimal (s : string) : option N :=
  match s with
  | EmptyString => None
  | _ => digits_value 0 s
  end.

Definition parse_octet (s : string) : option N :=
  match parse_decimal s with
  | Some n =>
      if (String.length s <=? 3)%nat && (n <=? 255)%N
         && ((String.length s =? 1)%nat || negb (PyStr.startswith "0" s))
      then Some n else None
  | None => None
  end.

Definition parse_address (s : string) : option N :=
  match parse_octet <$> split_on "." s with
  | [Some a; Some b; Some c; Some d] => Some (((a * 256 + b) * 256 + c) * 256 + d)%N
  | _ => None
  end.

Definition parse_network (s : string) : option (N * N) :=
  match split_on "/" s with
  | [a] => (λ ip, (ip, 32%N)) <$> parse_address a
  | [a; l] =>
      match parse_address a, parse_decimal l with
      | Some ip, Some len =>
          if (len <=? 32)%N
          then Some (N.shiftl (N.shiftr ip (32 - len)) (32 - len), len)
          else None
      | _, _ => None
      end
  | _ => None
  end.

Definition contains (ip : N) (net : N * N) : bool :=
  (N.shiftr ip (32 - net.2) =? N.shiftr net.1 (32 - net.2))%N.

#[export] Instance lib : IpAddressLib := {|
  ip_addr := N;
  ip_net := N * N;
  ip_address := parse_address;
  ip_network := parse_network;
  ip_in := contains
|}.

End IPv4.

(** ** src/scope/comparator.py *)

Inductive ScopeChangeType := ADDED | REMOVED | MODIFIED | UNCHANGED.

Module ScopeChange.
Record t := {
  change_type : ScopeChangeType;
  item : string;
  category : string;
  details : option (list (string * string))
}.
End ScopeChange.

Record ScopeComparison := {
  changes : list ScopeChange.t;
  additions : list ScopeChange.t;
  removals : list ScopeChange.t;
  modifications : list ScopeChange.t;
  unchanged_in_scope : gset string;
  unchanged_out_scope : gset string;
  has_changes : bool
}.

(** The four lists [compare] appends to. *)
Record ChangeLists := {
  l_changes : list ScopeChange.t;
  l_additions : list ScopeChange.t;
  l_removals : list ScopeChange.t;
  l_modifications : list ScopeChange.t
}.

Definition no_changes : ChangeLists :=
  {| l_changes := []; l_additions := []; l_removals := []; l_modifications := [] |}.

(** [additions.append(change); changes.append(change)] and its siblings *)
Definition append_addition (change : ScopeChange.t) (st : ChangeLists) : ChangeLists :=
  {| l_changes := l_changes st ++ [change]; l_additions := l_additions st ++ [change];
     l_removals := l_removals st; l_modifications := l_modifications st |}.

Definition append_removal (change : ScopeChange.t) (st : ChangeLists) : ChangeLists :=
  {| l_changes := l_changes st ++ [change]; l_additions := l_additions st;
     l_removals := l_removals st ++ [change]; l_modifications := l_modifications st |}.

Definition append_modification (change : ScopeChange.t) (st : ChangeLists) : ChangeLists :=
  {| l_changes := l_changes st ++ [change]; l_additions := l_additions st;
     l_removals := l_removals st; l_modifications := l_modifications st ++ [change] |}.

Definition moved (item cat from to : string) : ScopeChange.t :=
  {| ScopeChange.change_type := MODIFIED; ScopeChange.item := item;
     ScopeChange.category := cat;
     ScopeChange.details := Some [("from", from); ("to", to)] |}.

Definition plain (ty : ScopeChangeType) (item cat : string) : ScopeChange.t :=
  {| ScopeChange.change_type := ty; ScopeChange.item := item;
     ScopeChange.category := cat; ScopeChange.details := None |}.

Section Comparator.
Variables prev_in curr_in prev_out curr_out : gset string.

(** Body of [for item in curr_in - prev_in] *)
Definition added_in_step (st : ChangeLists) (item : string) : ChangeLists :=
  if bool_decide (item ∈ prev_out)
  then append_modification (moved item "in_scope" "out_of_scope" "in_scope") st
  else append_addition (plain ADDED item "in_scope") st.

(** Body of [for item in prev_in - curr_in] *)
Definition removed_in_step (st : ChangeLists) (item : string) : ChangeLists :=
  if bool_decide (item ∈ curr_out) then
    if bool_decide (item ∉ prev_out)
    then append_modification (moved item "out_of_scope" "in_scope" "out_of_scope") st
    else st
  else append_removal (plain REMOVED item "in_scope") st.

(** Body of [for item in curr_out - prev_out] *)
Definition added_out_step (st : ChangeLists) (item : string) : ChangeLists :=
  if bool_decide (item ∉ prev_in)
  then append_addition (plain ADDED item "out_of_scope") st
  else st.

(** Body of [for item in prev_out - curr_out] *)
Definition removed_out_step (st : ChangeLists) (item : string) : ChangeLists :=
  if bool_decide (item ∉ curr_in)
  then append_removal (plain REMOVED item "out_of_scope") st
  else st.

(** The four loops, in the order of the source. *)
Definition classify : ChangeLists :=
  let st := foldl added_in_step no_changes (elements (curr_in ∖ prev_in)) in
  let st := foldl removed_in_step st (elements (prev_in ∖ curr_in)) in
  let st := foldl added_out_step st (elements (curr_out ∖ prev_out)) in
  foldl removed_out_step st (elements (prev_out ∖ curr_out)).
End Comparator.

Inductive PyExn :=
  | AttributeError (cls attr : string).

(** [ScopeComparator.compare] from the checksum test on, for a given
    resolution [checksum] of the call [previous.checksum()]. *)
Definition compare_body (checksum : ScopeData → string) (previous current : ScopeData)
  : ScopeComparison :=
  if bool_decide (checksum previous = checksum current) then
    {| changes := []; additions := []; removals := []; modifications := [];
       unchanged_in_scope := list_to_set (in_scope current);
       unchanged_out_scope := list_to_set (out_of_scope current);
       has_changes := false |}
  else
    let prev_in : gset string := list_to_set (in_scope previous) in
    let curr_in : gset string := list_to_set (in_scope current) in
    let prev_out : gset string := list_to_set (out_of_scope previous) in
    let curr_out : gset string := list_to_set (out_of_scope current) in
    let st := classify prev_in curr_in prev_out curr_out in
    {| changes := l_changes st; additions := l_additions st;
       removals := l_removals st; modifications := l_modifications st;
       unchanged_in_scope := prev_in ∩ curr_in;
       unchanged_out_scope := prev_out ∩ curr_out;
       has_changes := bool_decide (0 < length (l_changes st))%nat |}.

(** [ScopeComparator.compare].  Its first statement formats
    [previous.checksum()] into the log line, so the method [checksum] is
    looked up on [ScopeData] before anything else happens. *)
Definition compare (sha256_hexdigest : string → string) (previous current : ScopeData)
  : PyExn + ScopeComparison :=
  match ScopeData_method sha256_hexdigest "checksum" with
  | Some checksum => inr (compare_body checksum previous current)
  | None => inl (AttributeError "ScopeData" "checksum")
  end.

(** ** src/db/models.py: Asset, AssetChange *)

Inductive ChangeType := CT_NEW | CT_MODIFIED | CT_DELETED.

(** One row of [assets].  [DateTime] values are microseconds on a common
    time axis; [JSON] list columns are optional lists of strings. *)
Module Asset.
Record t := {
  id : Z;
  program_id : Z;
  asset_type : string;
  value : string;
  resolved_ips : option (list string);
  cnames : option (list string);
  http_status : option Z;
  content_length : option Z;
  page_title : option string;
  technologies : option (list string);
  response_hash : option string;
  is_alive : bool;
  first_seen : Z;
  last_seen : Z;
  metadata : option string;
  created_at : Z;
  updated_at : Z
}.

#[global] Instance eq_dec : EqDecision t.
Proof. solve_decision. Defined.
End Asset.

Module AssetChange.
Record t := {
  asset_id : Z;
  change_type : ChangeType;
  field_name : string;
  old_value : option string;
  new_value : option string
}.
End AssetChange.

(** The probe record [new_data : Dict[str, Any]], read at the keys that
    name a column of [Asset]: [None] is an absent key, [Some v] a key bound
    to [v].  Keys that name no attribute of the asset are skipped by the
    [hasattr] test and are not represented. *)
Module NewData.
Record t := {
  id : option Z;
  program_id : option Z;
  asset_type : option string;
  value : option string;
  resolved_ips : option (option (list string));
  cnames : option (option (list string));
  http_status : option (option Z);
  content_length : option (option Z);
  page_title : option (option string);
  technologies : option (option (list string));
  response_hash : option (option string);
  is_alive : option bool;
  first_seen : option Z;
  last_seen : option Z;
  metadata : option (option string);
  created_at : option Z;
  updated_at : option Z
}.

(** The empty dict. *)
Definition empty : t :=
  {| id := None; program_id := None; asset_type := None; value := None;
     resolved_ips := None; cnames := None; http_status := None;
     content_length := None; page_title := None; technologies := None;
     response_hash := None; is_alive := None; first_seen := None;
     last_seen := None; metadata := None; created_at := None;
     updated_at := None |}.
End NewData.

(** The columns of [assets], and the value stored in one of them. *)
Inductive Column :=
  | c_id | c_program_id | c_asset_type | c_value | c_resolved_ips | c_cnames
  | c_http_status | c_content_length | c_page_title | c_technologies
  | c_response_hash | c_is_alive | c_first_seen | c_last_seen | c_metadata
  | c_created_at | c_updated_at.

Inductive PyVal :=
  | VNone
  | VBool (b : bool)
  | VInt (z : Z)
  | VStr (s : string)
  | VList (l : list string)
  | VDateTime (t : Z).

Definition opt_val {A} (f : A → PyVal) (o : option A) : PyVal :=
  match o with Some x => f x | None => VNone end.

(** [getattr(asset, column)] *)
Definition column_value (c : Column) (a : Asset.t) : PyVal :=
  match c with
  | c_id => VInt (Asset.id a)
  | c_program_id => VInt (Asset.program_id a)
  | c_asset_type => VStr (Asset.asset_type a)
  | c_value => VStr (Asset.value a)
  | c_resolved_ips => opt_val VList (Asset.resolved_ips a)
  | c_cnames => opt_val VList (Asset.cnames a)
  | c_http_status => opt_val VInt (Asset.http_status a)
  | c_content_length => opt_val VInt (Asset.content_length a)
  | c_page_title => opt_val VStr (Asset.page_title a)
  | c_technologies => opt_val VList (Asset.technologies a)
  | c_response_hash => opt_val VStr (Asset.response_hash a)
  | c_is_alive => VBool (Asset.is_alive a)
  | c_first_seen => VDateTime (Asset.first_seen a)
  | c_last_seen => VDateTime (Asset.last_seen a)
  | c_metadata => opt_val VStr (Asset.metadata a)
  | c_created_at => VDateTime (Asset.created_at a)
  | c_updated_at => VDateTime (Asset.updated_at a)
  end.

(** [column in new_data] *)
Definition has_key (c : Column) (nd : NewData.t) : bool :=
  match c with
  | c_id => bool_decide (is_Some (NewData.id nd))
  | c_program_id => bool_decide (is_Some (NewData.program_id nd))
  | c_asset_type => bool_decide (is_Some (NewData.asset_type nd))
  | c_value => bool_decide (is_Some (NewData.value nd))
  | c_resolved_ips => bool_decide (is_Some (NewData.resolved_ips nd))
  | c_cnames => bool_decide (is_Some (NewData.cnames nd))
  | c_http_status => bool_decide (is_Some (NewData.http_status nd))
  | c_content_length => bool_decide (is_Some (NewData.content_length nd))
  | c_page_title => bool_decide (is_Some (NewData.page_title nd))
  | c_technologies => bool_decide (is_Some (NewData.technologies nd))
  | c_response_hash => bool_decide (is_Some (NewData.response_hash nd))
  | c_is_alive => bool_decide (is_Some (NewData.is_alive nd))
  | c_first_seen => bool_decide (is_Some (NewData.first_seen nd))
  | c_last_seen => bool_decide (is_Some (NewData.last_seen nd))
  | c_metadata => bool_decide (is_Some (NewData.metadata nd))
  | c_created_at => bool_decide (is_Some (NewData.created_at nd))
  | c_updated_at => bool_decide (is_Some (NewData.updated_at nd))
  end.

(** [for key, val in new_data.items(): if hasattr(asset, key):
    setattr(asset, key, val)] *)
Definition set_attributes (nd : NewData.t) (a : Asset.t) : Asset.t :=
  {| Asset.id := default (Asset.id a) (NewData.id nd);
     Asset.program_id := default (Asset.program_id a) (NewData.program_id nd);
     Asset.asset_type := default (Asset.asset_type a) (NewData.asset_type nd);
     Asset.value := default (Asset.value a) (NewData.value nd);
     Asset.resolved_ips := default (Asset.resolved_ips a) (NewData.resolved_ips nd);
     Asset.cnames := default (Asset.cnames a) (NewData.cnames nd);
     Asset.http_status := default (Asset.http_status a) (NewData.http_status nd);
     Asset.content_length := default (Asset.content_length a) (NewData.content_length nd);
     Asset.page_title := default (Asset.page_title a) (NewData.page_title nd);
     Asset.technologies := default (Asset.technologies a) (NewData.technologies nd);
     Asset.response_hash := default (Asset.response_hash a) (NewData.response_hash nd);
     Asset.is_alive := default (Asset.is_alive a) (NewData.is_alive nd);
     Asset.first_seen := default (Asset.first_seen a) (NewData.first_seen nd);
     Asset.last_seen := default (Asset.last_seen a) (NewData.last_seen nd);
     Asset.metadata := default (Asset.metadata a) (NewData.metadata nd);
     Asset.created_at := default (Asset.created_at a) (NewData.created_at nd);
     Asset.updated_at := default (Asset.updated_at a) (NewData.updated_at nd) |}.

Definition set_last_seen (t : Z) (a : Asset.t) : Asset.t :=
  {| Asset.id := Asset.id a; Asset.program_id := Asset.program_id a;
     Asset.asset_type := Asset.asset_type a; Asset.value := Asset.value a;
     Asset.resolved_ips := Asset.resolved_ips a; Asset.cnames := Asset.cnames a;
     Asset.http_status := Asset.http_status a;
     Asset.content_length := Asset.content_length a;
     Asset.page_title := Asset.page_title a;
     Asset.technologies := Asset.technologies a;
     Asset.response_hash := Asset.response_hash a;
     Asset.is_alive := Asset.is_alive a; Asset.first_seen := Asset.first_seen a;
     Asset.last_seen := t; Asset.metadata := Asset.metadata a;
     Asset.created_at := Asset.created_at a; Asset.updated_at := Asset.updated_at a |}.

Definition set_is_alive (b : bool) (a : Asset.t) : Asset.t :=
  {| Asset.id := Asset.id a; Asset.program_id := Asset.program_id a;
     Asset.asset_type := Asset.asset_type a; Asset.value := Asset.value a;
     Asset.resolved_ips := Asset.resolved_ips a; Asset.cnames := Asset.cnames a;
     Asset.http_status := Asset.http_status a;
     Asset.content_length := Asset.content_length a;
     Asset.page_title := Asset.page_title a;
     Asset.technologies := Asset.technologies a;
     Asset.response_hash := Asset.response_hash a;
     Asset.is_alive := b; Asset.first_seen := Asset.first_seen a;
     Asset.last_seen := Asset.last_seen a; Asset.metadata := Asset.metadata a;
     Asset.created_at := Asset.created_at a; Asset.updated_at := Asset.updated_at a |}.

Definition set_updated_at (t : Z) (a : Asset.t) : Asset.t :=
  {| Asset.id := Asset.id a; Asset.program_id := Asset.program_id a;
     Asset.asset_type := Asset.asset_type a; Asset.value := Asset.value a;
     Asset.resolved_ips := Asset.resolved_ips a; Asset.cnames := Asset.cnames a;
     Asset.http_status := Asset.http_status a;
     Asset.content_length := Asset.content_length a;
     Asset.page_title := Asset.page_title a;
     Asset.technologies := Asset.technologies a;
     Asset.response_hash := Asset.response_hash a;
     Asset.is_alive := Asset.is_alive a; Asset.first_seen := Asset.first_seen a;
     Asset.last_seen := Asset.last_seen a; Asset.metadata := Asset.metadata a;
     Asset.created_at := Asset.created_at a; Asset.updated_at := t |}.

(** ** src/db/repositories.py *)

(** The row an INSERT of [Asset(program_id=.., asset_type=.., value=..)]
    produces: [is_alive] defaults to true and the four timestamps take the
    server default [now()]. *)
Definition inserted_row (db_now fresh_id program_id : Z) (asset_type value : string)
  : Asset.t :=
  {| Asset.id := fresh_id; Asset.program_id := program_id;
     Asset.asset_type := asset_type; Asset.value := value;
     Asset.resolved_ips := None; Asset.cnames := None; Asset.http_status := None;
     Asset.content_length := None; Asset.page_title := None;
     Asset.technologies := None; Asset.response_hash := None;
     Asset.is_alive := true; Asset.first_seen := db_now; Asset.last_seen := db_now;
     Asset.metadata := None; Asset.created_at := db_now; Asset.updated_at := db_now |}.

(** [AssetRepository.create_or_update].  [existing] is the result of the
    SELECT on [(program_id, value)]; [now] is [datetime.utcnow()], [db_now]
    the database's [now()] and [fresh_id] the id the INSERT would assign. *)
Definition create_or_update (now db_now fresh_id : Z) (existing : option Asset.t)
    (program_id : Z) (asset_type value : string) (kwargs : NewData.t)
  : Asset.t * bool :=
  match existing with
  | Some existing =>
      let existing := set_attributes kwargs existing in
      let existing := set_last_seen now existing in
      let existing := set_is_alive true existing in
      (existing, false)
  | None =>
      (set_attributes kwargs (inserted_row db_now fresh_id program_id asset_type value),
       true)
  end.

(** What the session writes for an object loaded as [loaded] and now in
    state [obj].  An object without net changes is not written.  Otherwise
    an UPDATE sets the changed columns, and the two columns declared with
    [onupdate=func.now()], [last_seen] and [updated_at], take [db_now]
    unless the UPDATE sets them itself.  The flush inside
    [AssetChangeRepository.record_change] and the commit that closes the
    session run in one transaction, where [now()] has one value, so the row
    after the commit is the one computed here. *)
Definition session_commit (db_now : Z) (loaded obj : Asset.t) : Asset.t :=
  if bool_decide (obj = loaded) then loaded
  else
    let row :=
      if bool_decide (Asset.last_seen obj = Asset.last_seen loaded)
      then set_last_seen db_now obj else obj in
    if bool_decide (Asset.updated_at obj = Asset.updated_at loaded)
    then set_updated_at db_now row else row.

(** ** src/core/diff_engine.py *)

(** [changed_fields] and the rows [_record_change] adds to the session. *)
Record Detected := {
  changed_fields : list string;
  recorded : list AssetChange.t
}.

(** [await self._record_change(asset=.., field_name=.., old_value=..,
    new_value=.., change_type=MODIFIED); changed_fields.append(field_name)] *)
Definition record_and_append (asset : Asset.t) (field_name : string)
    (old_value new_value : option string) (st : Detected) : Detected :=
  {| changed_fields := changed_fields st ++ [field_name];
     recorded := recorded st ++
       [{| AssetChange.asset_id := Asset.id asset;
           AssetChange.change_type := CT_MODIFIED;
           AssetChange.field_name := field_name;
           AssetChange.old_value := old_value;
           AssetChange.new_value := new_value |}] |}.

(** [str(x) if x else None] on an optional integer *)
Definition str_if_truthy (x : option Z) : option string :=
  match x with
  | Some z => if bool_decide (z = 0%Z) then None else Some (pretty z)
  | None => None
  end.

(** Truth value of an optional string *)
Definition truthy_str (x : option string) : bool :=
  match x with
  | Some s => negb (bool_decide (s = EmptyString))
  | None => false
  end.

(** [diff / old > 0.1] for integers [diff >= 0] and [old > 0].  Python
    divides two integers into the float nearest to the quotient, ties going
    to the even mantissa, and the literal [0.1] is the float
    7205759403792794 / 2^56.  The quotient is rounded to a float above that
    one exactly when it lies above the midpoint 14411518807585589 / 2^57
    between that float and the next: at the midpoint the tie goes to the
    even mantissa, which is the one of [0.1]. *)
Definition exceeds_threshold (diff old : Z) : bool :=
  (14411518807585589 * old <? diff * 2 ^ 57)%Z.

Section DetectChanges.
Variables (asset : Asset.t) (new_data : NewData.t).

Definition check_http_status (st : Detected) : Detected :=
  match NewData.http_status new_data with
  | Some new_status =>
      let old_status := Asset.http_status asset in
      if bool_decide (old_status ≠ new_status)
      then record_and_append asset "http_status"
             (str_if_truthy old_status) (str_if_truthy new_status) st
      else st
  | None => st
  end.

Definition check_content_length (st : Detected) : Detected :=
  match NewData.content_length new_data with
  | Some new =>
      let old_length := default 0%Z (Asset.content_length asset) in
      let new_length := default 0%Z new in
      if (0 <? old_length)%Z then
        if exceeds_threshold (Z.abs (new_length - old_length)) old_length
        then record_and_append asset "content_length"
               (Some (pretty old_length)) (Some (pretty new_length)) st
        else st
      else st
  | None => st
  end.

Definition check_technologies (st : Detected) : Detected :=
  match NewData.technologies new_data with
  | Some new =>
      let old_tech : gset string := list_to_set (default [] (Asset.technologies asset)) in
      let new_tech : gset string := list_to_set (default [] new) in
      if bool_decide (old_tech ≠ new_tech) then
        let added := new_tech ∖ old_tech in
        let removed := old_tech ∖ new_tech in
        if bool_decide (added ≠ ∅) || bool_decide (removed ≠ ∅)
        then record_and_append asset "technologies"
               (Some (PyStr.join "," (PyStr.sorted (elements old_tech))))
               (Some (PyStr.join "," (PyStr.sorted (elements new_tech)))) st
        else st
      else st
  | None => st
  end.

Definition check_page_title (st : Detected) : Detected :=
  match NewData.page_title new_data with
  | Some new_title =>
      let old_title := Asset.page_title asset in
      if bool_decide (old_title ≠ new_title)
      then record_and_append asset "page_title" old_title new_title st
      else st
  | None => st
  end.

Definition check_response_hash (st : Detected) : Detected :=
  match NewData.response_hash new_data with
  | Some new_hash =>
      let old_hash := Asset.response_hash asset in
      if truthy_str old_hash && truthy_str new_hash
         && bool_decide (old_hash ≠ new_hash)
      then record_and_append asset "response_hash" old_hash new_hash st
      else st
  | None => st
  end.

Definition check_resolved_ips (st : Detected) : Detected :=
  match NewData.resolved_ips new_data with
  | Some new =>
      let old_ips : gset string := list_to_set (default [] (Asset.resolved_ips asset)) in
      let new_ips : gset string := list_to_set (default [] new) in
      if bool_decide (old_ips ≠ new_ips)
      then record_and_append asset "resolved_ips"
             (Some (PyStr.join "," (PyStr.sorted (elements old_ips))))
             (Some (PyStr.join "," (PyStr.sorted (elements new_ips)))) st
      else st
  | None => st
  end.

(** [DiffEngine._detect_changes] *)
Definition _detect_changes : Detected :=
  let st := {| changed_fields := []; recorded := [] |} in
  let st := check_http_status st in
  let st := check_content_length st in
  let st := check_technologies st in
  let st := check_page_title st in
  let st := check_response_hash st in
  check_resolved_ips st.
End DetectChanges.

(** The result of [compare_and_update]: the tuple it returns and the
    change rows it added to the session. *)
Record Outcome := {
  out_asset : Asset.t;
  is_new : bool;
  out_changed_fields : list string;
  out_recorded : list AssetChange.t
}.

(** [DiffEngine.compare_and_update] *)
Definition compare_and_update (now db_now fresh_id : Z) (existing : option Asset.t)
    (program_id : Z) (asset_type value : string) (new_data : NewData.t) : Outcome :=
  let '(asset, is_new) :=
    create_or_update now db_now fresh_id existing program_id asset_type value
      NewData.empty in
  if is_new then
    {| out_asset := set_attributes new_data asset; is_new := true;
       out_changed_fields := []; out_recorded := [] |}
  else
    let d := _detect_changes asset new_data in
    {| out_asset := set_attributes new_data asset; is_new := false;
       out_changed_fields := changed_fields d; out_recorded := recorded d |}.

(** The row of an existing asset after [compare_and_update] and the commit
    that ends [update_assets_task]'s session. *)
Definition stored_after (now db_now : Z) (stored : Asset.t) (new_data : NewData.t)
  : Asset.t :=
  session_commit db_now stored
    (out_asset (compare_and_update now db_now 0 (Some stored)
                  (Asset.program_id stored) (Asset.asset_type stored)
                  (Asset.value stored) new_data)).



(** The condition under which [check_content_length] reports. *)
Definition length_reported (asset : Asset.t) (nd : NewData.t) : bool :=
  match NewData.content_length nd with
  | Some new =>
      let old_length := default 0%Z (Asset.content_length asset) in
      (0 <? old_length)%Z &&
      exceeds_threshold (Z.abs (default 0%Z new - old_length)) old_length
  | None => false
  end.

(** ** The loops of [compare] in closed form *)

(** Which of the three lists a change is appended to, besides [changes]. *)
Inductive Bucket := Additions | Removals | Modifications.

Definition push (e : option (Bucket * ScopeChange.t)) (st : ChangeLists) : ChangeLists :=
  match e with
  | Some (Additions, c) => append_addition c st
  | Some (Removals, c) => append_removal c st
  | Some (Modifications, c) => append_modification c st
  | None => st
  end.

Definition into (b : Bucket) (e : option (Bucket * ScopeChange.t))
  : option ScopeChange.t :=
  match b, e with
  | Additions, Some (Additions, c) => Some c
  | Removals, Some (Removals, c) => Some c
  | Modifications, Some (Modifications, c) => Some c
  | _, _ => None
  end.

Section Emitted.
Variables prev_in curr_in prev_out curr_out : gset string.

Definition added_in_emit (item : string) : option (Bucket * ScopeChange.t) :=
  if bool_decide (item ∈ prev_out)
  then Some (Modifications, moved item "in_scope" "out_of_scope" "in_scope")
  else Some (Additions, plain ADDED item "in_scope").

Definition removed_in_emit (item : string) : option (Bucket * ScopeChange.t) :=
  if bool_decide (item ∈ curr_out) then
    if bool_decide (item ∉ prev_out)
    then Some (Modifications, moved item "out_of_scope" "in_scope" "out_of_scope")
    else None
  else Some (Removals, plain REMOVED item "in_scope").

Definition added_out_emit (item : string) : option (Bucket * ScopeChange.t) :=
  if bool_decide (item ∉ prev_in)
  then Some (Additions, plain ADDED item "out_of_scope") else None.

Definition removed_out_emit (item : string) : option (Bucket * ScopeChange.t) :=
  if bool_decide (item ∉ curr_in)
  then Some (Removals, plain REMOVED item "out_of_scope") else None.
End Emitted.

(** A change an emit function yields for [i] is a change of [i]. *)
Definition names_its_item (f : string → option ScopeChange.t) : Prop :=
  ∀ i c, f i = Some c → ScopeChange.item c = i.

(** The scope data used in the examples. *)
Definition mkScope (ins outs : list string) : ScopeData :=
  {| in_scope := ins; out_of_scope := outs; platform := "hackerone";
     program_handle := "acme"; program_name := "Acme";
     program_description := None; program_url := None; last_updated := None |}.

(** ** Sample data *)

Definition sample_asset : Asset.t :=
  {| Asset.id := 7; Asset.program_id := 1; Asset.asset_type := "subdomain";
     Asset.value := "api.example.com";
     Asset.resolved_ips := Some ["10.0.0.1"]; Asset.cnames := None;
     Asset.http_status := Some 200%Z; Asset.content_length := Some 1000%Z;
     Asset.page_title := Some "Home"; Asset.technologies := Some ["nginx"];
     Asset.response_hash := Some "ab12"; Asset.is_alive := false;
     Asset.first_seen := 0; Asset.last_seen := 1000; Asset.metadata := None;
     Asset.created_at := 0; Asset.updated_at := 500 |}.


(** [{"content_length": n}] *)
Definition probe_length (n : Z) : NewData.t :=
  {| NewData.id := None; NewData.program_id := None; NewData.asset_type := None;
     NewData.value := None; NewData.resolved_ips := None; NewData.cnames := None;
     NewData.http_status := None; NewData.content_length := Some (Some n);
     NewData.page_title := None; NewData.technologies := None;
     NewData.response_hash := None; NewData.is_alive := None;
     NewData.first_seen := None; NewData.last_seen := None;
     NewData.metadata := None; NewData.created_at := None;
     NewData.updated_at := None |}.


(** ** Further operations of the same modules *)

Section ValidatorBatch.
Context `{IpAddressLib}.

(** [ScopeValidator.validate_batch] *)
Definition validate_batch (v : ScopeValidator) (assets : list string)
  : list ValidationResult.t :=
  validate v <$> assets.

(** [ScopeValidator.filter_in_scope] *)
Definition filter_in_scope (v : ScopeValidator) (assets : list string) : list string :=
  filter (λ asset, ValidationResult.in_scope (validate v asset) = true) assets.

(** [ScopeValidator.filter_out_scope] *)
Definition filter_out_scope (v : ScopeValidator) (assets : list string) : list string :=
  filter (λ asset, ValidationResult.in_scope (validate v asset) ≠ true) assets.
End ValidatorBatch.

(** [ScopeComparison.summary] *)
Definition summary (self : ScopeComparison) : string :=
  if negb (has_changes self) then "No scope changes detected"
  else
    let parts : list string := [] in
    let parts := match additions self with
                 | [] => parts
                 | _ => (parts ++ [pretty (length (additions self)) +:+ " added"])%list
                 end in
    let parts := match removals self with
                 | [] => parts
                 | _ => (parts ++ [pretty (length (removals self)) +:+ " removed"])%list
                 end in
    let parts := match modifications self with
                 | [] => parts
                 | _ => (parts ++ [pretty (length (modifications self)) +:+ " modified"])%list
                 end in
    PyStr.join ", " parts.

(** [ScopeParserFactory]: the class-level dict [_parsers], in insertion
    order, from lower-case platform names to parser classes.  A parser
    class is what builds a parser from the keyword arguments. *)
Section ParserFactory.
Variables (Kwargs Parser : Type).

Definition Registry := list (string * (Kwargs → Parser)).

(** [d[key] = val] on an insertion-ordered dict *)
Fixpoint dict_set (key : string) (val : Kwargs → Parser) (d : Registry) : Registry :=
  match d with
  | [] => [(key, val)]
  | (k, v) :: rest =>
      if bool_decide (k = key) then (k, val) :: rest
      else (k, v) :: dict_set key val rest
  end.

(** [d.get(key)] *)
Fixpoint dict_get (key : string) (d : Registry) : option (Kwargs → Parser) :=
  match d with
  | [] => None
  | (k, v) :: rest => if bool_decide (k = key) then Some v else dict_get key rest
  end.

(** [ScopeParserFactory.register] *)
Definition register (platform : string) (parser_class : Kwargs → Parser)
    (_parsers : Registry) : Registry :=
  dict_set (PyStr.lower platform) parser_class _parsers.

(** [ScopeParserFactory.supported_platforms] *)
Definition supported_platforms (_parsers : Registry) : list string := fst <$> _parsers.

(** [ScopeParserFactory.create]; [inl msg] is [ValueError(msg)]. *)
Definition create (platform : string) (kwargs : Kwargs) (_parsers : Registry)
  : string + Parser :=
  let platform := PyStr.lower platform in
  match dict_get platform _parsers with
  | None =>
      inl ("Unsupported platform: " +:+ platform +:+ ". Supported: "
           +:+ PyStr.join ", " (supported_platforms _parsers))
  | Some parser_class => inr (parser_class kwargs)
  end.
End ParserFactory.

(** [BaseScopeParser.categorize_scope_items].  [parse_scope_item] is the
    abstract method: it returns the dict's [type] entry, if any, and its
    [value] entry. *)
Record Categories := {
  cat_wildcard : list string;
  cat_domain : list string;
  cat_subdomain : list string;
  cat_ip : list string;
  cat_cidr : list string;
  cat_other : list string
}.

Section Categorize.
Variable parse_scope_item : string → option string * string.

Definition categorize_step (categories : Categories) (item : string) : Categories :=
  let parsed := parse_scope_item item in
  let item_type := default "other" parsed.1 in
  let v := parsed.2 in
  let put (name : string) (old : list string) : list string :=
    if bool_decide (item_type = name) then (old ++ [v])%list else old in
  if bool_decide (item_type ∈ ["wildcard"; "domain"; "subdomain"; "ip"; "cidr"; "other"])
  then
    {| cat_wildcard := put "wildcard" (cat_wildcard categories);
       cat_domain := put "domain" (cat_domain categories);
       cat_subdomain := put "subdomain" (cat_subdomain categories);
       cat_ip := put "ip" (cat_ip categories);
       cat_cidr := put "cidr" (cat_cidr categories);
       cat_other := put "other" (cat_other categories) |}
  else
    {| cat_wildcard := cat_wildcard categories; cat_domain := cat_domain categories;
       cat_subdomain := cat_subdomain categories; cat_ip := cat_ip categories;
       cat_cidr := cat_cidr categories;
       cat_other := (cat_other categories ++ [v])%list |}.

Definition categorize_scope_items (items : list string) : Categories :=
  foldl categorize_step
    {| cat_wildcard := []; cat_domain := []; cat_subdomain := []; cat_ip := [];
       cat_cidr := []; cat_other := [] |} items.
End Categorize.

(** A string that does not begin with a character [p] accepts. *)
Definition starts_clean (p : ascii → bool) (s : string) : Prop :=
  match s with
  | EmptyString => True
  | String c _ => p c = false
  end.

(** The number of literal characters of a compiled wildcard rule. *)
Fixpoint literal_count (p : list re_item) : nat :=
  match p with
  | [] => 0
  | Lit _ :: p' => S (literal_count p')
  | DotStar :: p' => literal_count p'
  end.

(** The four lists agree: [changes] holds what the three other lists hold,
    and each of these holds changes of its own type. *)
Definition lists_consistent (st : ChangeLists) : Prop :=
  l_changes st ≡ₚ (l_additions st ++ l_removals st ++ l_modifications st)%list
  ∧ Forall (λ c, ScopeChange.change_type c = ADDED ∧ ScopeChange.details c = None)
      (l_additions st)
  ∧ Forall (λ c, ScopeChange.change_type c = REMOVED ∧ ScopeChange.details c = None)
      (l_removals st)
  ∧ Forall (λ c, ScopeChange.change_type c = MODIFIED
                 ∧ is_Some (ScopeChange.details c))
      (l_modifications st).

(** The conditions under which the other checks of [_detect_changes]
    report their field. *)
Definition status_reported (asset : Asset.t) (nd : NewData.t) : bool :=
  match NewData.http_status nd with
  | Some new => bool_decide (Asset.http_status asset ≠ new)
  | None => false
  end.

Definition technologies_reported (asset : Asset.t) (nd : NewData.t) : bool :=
  match NewData.technologies nd with
  | Some new =>
      bool_decide (list_to_set (default [] (Asset.technologies asset))
                   ≠@{gset string} list_to_set (default [] new))
  | None => false
  end.

Definition title_reported (asset : Asset.t) (nd : NewData.t) : bool :=
  match NewData.page_title nd with
  | Some new => bool_decide (Asset.page_title asset ≠ new)
  | None => false
  end.

Definition hash_reported (asset : Asset.t) (nd : NewData.t) : bool :=
  match NewData.response_hash nd with
  | Some new =>
      truthy_str (Asset.response_hash asset) && truthy_str new
      && bool_decide (Asset.response_hash asset ≠ new)
  | None => false
  end.

Definition ips_reported (asset : Asset.t) (nd : NewData.t) : bool :=
  match NewData.resolved_ips nd with
  | Some new =>
      bool_decide (list_to_set (default [] (Asset.resolved_ips asset))
                   ≠@{gset string} list_to_set (default [] new))
  | None => false
  end.

(** [[name] if flag else []] *)
Definition when (flag : bool) (name : string) : list string :=
  if flag then [name] else [].

(** The type and the value [categorize_scope_items] reads off a parsed
    item, and the types that have a list of their own besides [other]. *)
Definition parsed_type (parse_scope_item : string → option string * string)
    (i : string) : string :=
  default "other" (parse_scope_item i).1.

Definition parsed_value (parse_scope_item : string → option string * string)
    (i : string) : string :=
  (parse_scope_item i).2.

Definition known_types : list string :=
  ["wildcard"; "domain"; "subdomain"; "ip"; "cidr"].

(** [new_data.get(column)] *)
Definition key_value (c : Column) (nd : NewData.t) : option PyVal :=
  match c with
  | c_id => VInt <$> NewData.id nd
  | c_program_id => VInt <$> NewData.program_id nd
  | c_asset_type => VStr <$> NewData.asset_type nd
  | c_value => VStr <$> NewData.value nd
  | c_resolved_ips => opt_val VList <$> NewData.resolved_ips nd
  | c_cnames => opt_val VList <$> NewData.cnames nd
  | c_http_status => opt_val VInt <$> NewData.http_status nd
  | c_content_length => opt_val VInt <$> NewData.content_length nd
  | c_page_title => opt_val VStr <$> NewData.page_title nd
  | c_technologies => opt_val VList <$> NewData.technologies nd
  | c_response_hash => opt_val VStr <$> NewData.response_hash nd
  | c_is_alive => VBool <$> NewData.is_alive nd
  | c_first_seen => VDateTime <$> NewData.first_seen nd
  | c_last_seen => VDateTime <$> NewData.last_seen nd
  | c_metadata => opt_val VStr <$> NewData.metadata nd
  | c_created_at => VDateTime <$> NewData.created_at nd
  | c_updated_at => VDateTime <$> NewData.updated_at nd
  end.

(** The fields [_detect_changes] looks at, in its order, with the column
    each one names. *)
Definition detect_fields : list (string * Column) :=
  [("http_status", c_http_status); ("content_length", c_content_length);
   ("technologies", c_technologies); ("page_title", c_page_title);
   ("response_hash", c_response_hash); ("resolved_ips", c_resolved_ips)].

(** * Properties *)

Local Set Warnings "-clear-no-such-hyp".

Local Open Scope list_scope.

(** ** The scan decision *)



(** ** Change detection *)

Lemma changed_fields_record asset name old new st :
  changed_fields (record_and_append asset name old new st)
    = changed_fields st ++ [name].
Proof. reflexivity. Qed.













(** ** Partial updates and timestamps *)

Lemma column_value_set_attributes (c : Column) (nd : NewData.t) (a : Asset.t) :
  has_key c nd = false → column_value c (set_attributes nd a) = column_value c a.
Proof.
  destruct c; simpl; intros Hkey;
    apply bool_decide_eq_false in Hkey;
    match type of Hkey with
    | ¬ is_Some ?o => destruct o; [exfalso; apply Hkey; eauto | reflexivity]
    end.
Qed.

Lemma set_attributes_empty (a : Asset.t) : set_attributes NewData.empty a = a.
Proof. by destruct a. Qed.

(** The object [compare_and_update] returns for an existing asset. *)
Lemma compare_and_update_existing now db_now fresh stored pid ty v nd :
  out_asset (compare_and_update now db_now fresh (Some stored) pid ty v nd)
    = set_attributes nd (set_is_alive true (set_last_seen now stored)).
Proof.
  unfold compare_and_update, create_or_update.
  by rewrite set_attributes_empty.
Qed.







(** ** Scope comparison *)

Lemma sorted_permutation (l1 l2 : list string) :
  l1 ≡ₚ l2 → PyStr.sorted l1 = PyStr.sorted l2.
Proof.
  intros Hp. unfold PyStr.sorted.
  apply (Sorted_unique String.le); try apply Sorted_merge_sort; try apply _.
  by rewrite !merge_sort_Permutation.
Qed.

(** The digest [calculate_checksum] computes does not depend on the order
    of the two lists. *)
Lemma calculate_checksum_permutation sha (a b : ScopeData) :
  in_scope a ≡ₚ in_scope b → out_of_scope a ≡ₚ out_of_scope b →
  calculate_checksum sha a = calculate_checksum sha b.
Proof.
  intros Hi Ho. unfold calculate_checksum.
  by rewrite (sorted_permutation _ _ Hi), (sorted_permutation _ _ Ho).
Qed.

(** With the checksum call resolved, equal checksums end the comparison at
    once. *)
Lemma compare_body_equal_checksums checksum prev curr :
  checksum prev = checksum curr →
  let r := compare_body checksum prev curr in
  has_changes r = false ∧ changes r = [] ∧ additions r = [] ∧ removals r = []
  ∧ modifications r = [].
Proof.
  intros Heq. unfold compare_body. by rewrite bool_decide_eq_true_2.
Qed.

(** [ScopeData] has no method [checksum]: every call of [compare] raises. *)
Lemma compare_raises sha prev curr :
  compare sha prev curr = inl (AttributeError "ScopeData" "checksum").
Proof. reflexivity. Qed.

(** C2, on the code.  Two snapshots with the same rules in a different
    order have equal digests, and [compare] does not return the empty
    comparison for them: it raises AttributeError. *)
Theorem compare_equal_checksums_raises (sha : string → string) :
  let prev := mkScope ["a.example.com"; "b.example.com"] ["x.example.com"] in
  let curr := mkScope ["b.example.com"; "a.example.com"] ["x.example.com"] in
  calculate_checksum sha prev = calculate_checksum sha curr
  ∧ compare sha prev curr = inl (AttributeError "ScopeData" "checksum")
  ∧ ∀ r, has_changes r = false → compare sha prev curr ≠ inr r.
Proof.
  intros prev curr. split; [|split].
  - apply calculate_checksum_permutation; [apply Permutation_swap | reflexivity].
  - apply compare_raises.
  - intros r _. rewrite compare_raises. discriminate.
Qed.

(** C4, on the code.  For a rule that moves from out of scope to in scope,
    [compare] produces no change at all: it raises AttributeError. *)
Theorem compare_move_raises (sha : string → string) :
  let prev := mkScope ["example.com"] ["test.example.com"] in
  let curr := mkScope ["example.com"; "test.example.com"] [] in
  ("test.example.com" ∈ out_of_scope prev) ∧ ("test.example.com" ∈ in_scope curr)
  ∧ ("test.example.com" ∉ in_scope prev)
  ∧ compare sha prev curr = inl (AttributeError "ScopeData" "checksum")
  ∧ ∀ r, compare sha prev curr ≠ inr r.
Proof.
  intros prev curr. repeat split.
  - apply list_elem_of_singleton. reflexivity.
  - apply elem_of_cons. right. apply list_elem_of_singleton. reflexivity.
  - intros Hin. apply list_elem_of_singleton in Hin. discriminate.
  - intros r. rewrite compare_raises. discriminate.
Qed.

(** *** The four loops *)

Lemma foldl_steps_ext {A B} (f g : A → B → A) (l : list B) (a : A) :
  (∀ a b, f a b = g a b) → foldl f a l = foldl g a l.
Proof.
  intros Hfg. revert a. induction l as [|b l IH]; intros a; simpl; [done|].
  by rewrite Hfg, IH.
Qed.

Lemma foldl_push (e : string → option (Bucket * ScopeChange.t)) (l : list string)
    (st : ChangeLists) :
  let r := foldl (λ st i, push (e i) st) st l in
  l_changes r = l_changes st ++ omap (λ i, snd <$> e i) l
  ∧ l_additions r = l_additions st ++ omap (λ i, into Additions (e i)) l
  ∧ l_removals r = l_removals st ++ omap (λ i, into Removals (e i)) l
  ∧ l_modifications r = l_modifications st ++ omap (λ i, into Modifications (e i)) l.
Proof.
  revert st. induction l as [|i l IH]; intros st; simpl.
  - by rewrite !app_nil_r.
  - destruct (IH (push (e i) st)) as (H1 & H2 & H3 & H4).
    rewrite H1, H2, H3, H4. clear.
    destruct (e i) as [[[] c]|]; simpl; by rewrite <- ?app_assoc.
Qed.

(** The lists [classify] builds, loop by loop. *)
Lemma classify_closed_form (prev_in curr_in prev_out curr_out : gset string) :
  let e1 := added_in_emit prev_out in
  let e2 := removed_in_emit prev_out curr_out in
  let e3 := added_out_emit prev_in in
  let e4 := removed_out_emit curr_in in
  let L1 := elements (curr_in ∖ prev_in) in
  let L2 := elements (prev_in ∖ curr_in) in
  let L3 := elements (curr_out ∖ prev_out) in
  let L4 := elements (prev_out ∖ curr_out) in
  let st := classify prev_in curr_in prev_out curr_out in
  ∀ (pick : option (Bucket * ScopeChange.t) → option ScopeChange.t)
    (proj : ChangeLists → list ScopeChange.t),
    (pick = fmap snd ∧ proj = l_changes)
    ∨ (pick = into Additions ∧ proj = l_additions)
    ∨ (pick = into Removals ∧ proj = l_removals)
    ∨ (pick = into Modifications ∧ proj = l_modifications) →
    proj st = omap (λ i, pick (e1 i)) L1 ++ omap (λ i, pick (e2 i)) L2
              ++ omap (λ i, pick (e3 i)) L3 ++ omap (λ i, pick (e4 i)) L4.
Proof.
  intros e1 e2 e3 e4 L1 L2 L3 L4 st pick proj Hpick.
  subst st. unfold classify. fold L1 L2 L3 L4.
  rewrite (foldl_steps_ext (added_in_step prev_out) (λ st i, push (e1 i) st))
    by (intros; subst e1; unfold added_in_step, added_in_emit;
        by repeat case_bool_decide).
  rewrite (foldl_steps_ext (removed_in_step prev_out curr_out)
             (λ st i, push (e2 i) st))
    by (intros; subst e2; unfold removed_in_step, removed_in_emit;
        by repeat case_bool_decide).
  rewrite (foldl_steps_ext (added_out_step prev_in) (λ st i, push (e3 i) st))
    by (intros; subst e3; unfold added_out_step, added_out_emit;
        by repeat case_bool_decide).
  rewrite (foldl_steps_ext (removed_out_step curr_in) (λ st i, push (e4 i) st))
    by (intros; subst e4; unfold removed_out_step, removed_out_emit;
        by repeat case_bool_decide).
  destruct (foldl_push e4 L4 (foldl (λ st i, push (e3 i) st)
              (foldl (λ st i, push (e2 i) st)
                 (foldl (λ st i, push (e1 i) st) no_changes L1) L2) L3))
    as (A4 & B4 & C4 & D4).
  destruct (foldl_push e3 L3 (foldl (λ st i, push (e2 i) st)
              (foldl (λ st i, push (e1 i) st) no_changes L1) L2))
    as (A3 & B3 & C3 & D3).
  destruct (foldl_push e2 L2 (foldl (λ st i, push (e1 i) st) no_changes L1))
    as (A2 & B2 & C2 & D2).
  destruct (foldl_push e1 L1 no_changes) as (A1 & B1 & C1 & D1).
  simpl in *.
  destruct Hpick as [[-> ->]|[[-> ->]|[[-> ->]|[-> ->]]]].
  - rewrite A4, A3, A2, A1. by rewrite <- !app_assoc.
  - rewrite B4, B3, B2, B1. by rewrite <- !app_assoc.
  - rewrite C4, C3, C2, C1. by rewrite <- !app_assoc.
  - rewrite D4, D3, D2, D1. by rewrite <- !app_assoc.
Qed.

Lemma emits_name_item (pick : option (Bucket * ScopeChange.t) → option ScopeChange.t)
    (e : string → option (Bucket * ScopeChange.t)) :
  (pick = fmap snd ∨ ∃ b, pick = into b) →
  (∀ i b c, e i = Some (b, c) → ScopeChange.item c = i) →
  names_its_item (λ i, pick (e i)).
Proof.
  intros Hpick He i c Hc.
  destruct (e i) as [[b c']|] eqn:Ei.
  - specialize (He i b c' Ei).
    destruct Hpick as [->|[b' ->]]; simpl in Hc.
    + congruence.
    + destruct b', b; simpl in Hc; congruence.
  - destruct Hpick as [->|[b' ->]]; simpl in Hc; [done|by destruct b'].
Qed.

Lemma added_in_emit_item po i b c :
  added_in_emit po i = Some (b, c) → ScopeChange.item c = i.
Proof. unfold added_in_emit. case_bool_decide; intros [= <- <-]; done. Qed.

Lemma removed_in_emit_item po co i b c :
  removed_in_emit po co i = Some (b, c) → ScopeChange.item c = i.
Proof.
  unfold removed_in_emit. repeat case_bool_decide; intros [= <- <-] || intros [=]; done.
Qed.

Lemma added_out_emit_item pi i b c :
  added_out_emit pi i = Some (b, c) → ScopeChange.item c = i.
Proof. unfold added_out_emit. case_bool_decide; intros [= <- <-] || intros [=]; done. Qed.

Lemma removed_out_emit_item ci i b c :
  removed_out_emit ci i = Some (b, c) → ScopeChange.item c = i.
Proof. unfold removed_out_emit. case_bool_decide; intros [= <- <-] || intros [=]; done. Qed.

(** Changes for [x] come from [x] only. *)
Lemma filter_item_none (f : string → option ScopeChange.t) (l : list string) (x : string) :
  names_its_item f → (x ∉ l ∨ f x = None) →
  filter (λ c, ScopeChange.item c = x) (omap f l) = [].
Proof.
  intros Hf Hx. induction l as [|i l IH]; simpl; [done|].
  assert (Hrest : x ∉ l ∨ f x = None).
  { destruct Hx as [Hx|Hx]; [left|by right]. intros Hin. apply Hx. by right. }
  destruct (f i) as [c|] eqn:Ei; [|by apply IH].
  rewrite filter_cons_False; [by apply IH|].
  rewrite (Hf i c Ei). intros ->.
  destruct Hx as [Hx|Hx]; [apply Hx; by left | congruence].
Qed.

Lemma filter_item_single (f : string → option ScopeChange.t) (l : list string)
    (x : string) (c : ScopeChange.t) :
  names_its_item f → NoDup l → x ∈ l → f x = Some c →
  filter (λ c, ScopeChange.item c = x) (omap f l) = [c].
Proof.
  intros Hf Hnd Hin Hc. induction l as [|i l IH]; [by apply elem_of_nil in Hin|].
  apply NoDup_cons in Hnd as [Hi Hnd]. simpl.
  destruct (decide (i = x)) as [->|Hne].
  - rewrite Hc. rewrite filter_cons_True by (by apply Hf).
    f_equal. apply filter_item_none; [done|by left].
  - apply elem_of_cons in Hin as [->|Hin]; [done|].
    destruct (f i) as [c'|] eqn:Ei; [|by apply IH].
    rewrite filter_cons_False; [by apply IH|].
    by rewrite (Hf i c' Ei).
Qed.

Lemma classify_filter (prev_in curr_in prev_out curr_out : gset string)
    (pick : option (Bucket * ScopeChange.t) → option ScopeChange.t)
    (proj : ChangeLists → list ScopeChange.t) (x : string) :
  (pick = fmap snd ∧ proj = l_changes)
  ∨ (pick = into Additions ∧ proj = l_additions)
  ∨ (pick = into Removals ∧ proj = l_removals)
  ∨ (pick = into Modifications ∧ proj = l_modifications) →
  let only := filter (λ c, ScopeChange.item c = x) in
  only (proj (classify prev_in curr_in prev_out curr_out))
  = only (omap (λ i, pick (added_in_emit prev_out i)) (elements (curr_in ∖ prev_in)))
    ++ only (omap (λ i, pick (removed_in_emit prev_out curr_out i))
               (elements (prev_in ∖ curr_in)))
    ++ only (omap (λ i, pick (added_out_emit prev_in i)) (elements (curr_out ∖ prev_out)))
    ++ only (omap (λ i, pick (removed_out_emit curr_in i))
               (elements (prev_out ∖ curr_out))).
Proof.
  intros Hpick only. subst only.
  rewrite (classify_closed_form prev_in curr_in prev_out curr_out pick proj Hpick).
  by rewrite !filter_app.
Qed.

Lemma pick_cases (pick : option (Bucket * ScopeChange.t) → option ScopeChange.t)
    (proj : ChangeLists → list ScopeChange.t) :
  (pick = fmap snd ∧ proj = l_changes)
  ∨ (pick = into Additions ∧ proj = l_additions)
  ∨ (pick = into Removals ∧ proj = l_removals)
  ∨ (pick = into Modifications ∧ proj = l_modifications) →
  pick = fmap snd ∨ ∃ b, pick = into b.
Proof. intros [[-> _]|[[-> _]|[[-> _]|[-> _]]]]; eauto. Qed.

Lemma pick_none (pick : option (Bucket * ScopeChange.t) → option ScopeChange.t) :
  (pick = fmap snd ∨ ∃ b, pick = into b) → pick None = None.
Proof. intros [->|[b ->]]; [done|by destruct b]. Qed.

(** An item of both previous lists that only leaves the in-scope list
    yields nothing in any of the four lists. *)
Lemma classify_silent (prev_in curr_in prev_out curr_out : gset string)
    (pick : option (Bucket * ScopeChange.t) → option ScopeChange.t)
    (proj : ChangeLists → list ScopeChange.t) (x : string) :
  (pick = fmap snd ∧ proj = l_changes)
  ∨ (pick = into Additions ∧ proj = l_additions)
  ∨ (pick = into Removals ∧ proj = l_removals)
  ∨ (pick = into Modifications ∧ proj = l_modifications) →
  x ∈ prev_in → x ∈ prev_out → x ∈ curr_out → x ∉ curr_in →
  filter (λ c, ScopeChange.item c = x)
    (proj (classify prev_in curr_in prev_out curr_out)) = [].
Proof.
  intros Hpick Hpi Hpo Hco Hci.
  rewrite (classify_filter _ _ _ _ pick proj x Hpick).
  pose proof (pick_cases pick proj Hpick) as Hp.
  rewrite !filter_item_none; try done.
  - by apply emits_name_item, removed_out_emit_item.
  - left. rewrite elem_of_elements, elem_of_difference. tauto.
  - by apply emits_name_item, added_out_emit_item.
  - left. rewrite elem_of_elements, elem_of_difference. tauto.
  - by apply emits_name_item, removed_in_emit_item.
  - right. unfold removed_in_emit.
    rewrite bool_decide_eq_true_2 by done.
    rewrite bool_decide_eq_false_2 by tauto. by apply pick_none.
  - by apply emits_name_item, added_in_emit_item.
  - left. rewrite elem_of_elements, elem_of_difference. tauto.
Qed.

(** C10.  An item listed both in scope and out of scope in the previous
    snapshot, and only out of scope in the current one, gets no
    ScopeChange: no element of changes, additions, removals or
    modifications is about it.  This holds for the body of compare under
    every resolution of its checksum call. *)
Theorem no_change_for_item_leaving_both_lists (checksum : ScopeData → string)
    (previous current : ScopeData) (x : string) :
  x ∈ in_scope previous → x ∈ out_of_scope previous →
  x ∈ out_of_scope current → x ∉ in_scope current →
  let r := compare_body checksum previous current in
  ∀ c, c ∈ changes r ∨ c ∈ additions r ∨ c ∈ removals r ∨ c ∈ modifications r →
       ScopeChange.item c ≠ x.
Proof.
  intros Hpi Hpo Hco Hci r c Hc. subst r. unfold compare_body in Hc.
  case_bool_decide as Hck; simpl in Hc.
  - destruct Hc as [Hc|[Hc|[Hc|Hc]]]; by apply elem_of_nil in Hc.
  - intros Hx.
    assert (Hsil : ∀ pick proj,
      (pick = fmap snd ∧ proj = l_changes)
      ∨ (pick = into Additions ∧ proj = l_additions)
      ∨ (pick = into Removals ∧ proj = l_removals)
      ∨ (pick = into Modifications ∧ proj = l_modifications) →
      c ∉ proj (classify (list_to_set (in_scope previous))
                  (list_to_set (in_scope current))
                  (list_to_set (out_of_scope previous))
                  (list_to_set (out_of_scope current)))).
    { intros pick proj Hpick.
      apply (filter_nil_not_elem_of (λ c, ScopeChange.item c = x)); [|done].
      apply (classify_silent _ _ _ _ pick proj x Hpick);
        rewrite elem_of_list_to_set; done. }
    destruct Hc as [Hc|[Hc|[Hc|Hc]]].
    + eapply Hsil; [|exact Hc]. eauto.
    + eapply Hsil; [|exact Hc]. eauto.
    + eapply Hsil; [|exact Hc]. eauto 6.
    + eapply Hsil; [|exact Hc]. eauto 6.
Qed.

Ltac by_computation := apply (bool_decide_unpack _); vm_compute; exact I.

Lemma no_change_for_item_leaving_both_lists_witness :
  let prev := mkScope ["a.example.com"; "b.example.com"] ["b.example.com"] in
  let curr := mkScope ["a.example.com"] ["b.example.com"] in
  ("b.example.com" ∈ in_scope prev) ∧ ("b.example.com" ∈ out_of_scope prev)
  ∧ ("b.example.com" ∈ out_of_scope curr) ∧ ("b.example.com" ∉ in_scope curr)
  ∧ plain REMOVED "b.example.com" "in_scope"
      ∉ removals (compare_body (calculate_checksum (λ s, s)) prev curr).
Proof.
  intros prev curr.
  assert (H1 : "b.example.com" ∈ in_scope prev) by by_computation.
  assert (H2 : "b.example.com" ∈ out_of_scope prev) by by_computation.
  assert (H3 : "b.example.com" ∈ out_of_scope curr) by by_computation.
  assert (H4 : "b.example.com" ∉ in_scope curr) by by_computation.
  repeat split; try assumption.
  intros Hin.
  exact (no_change_for_item_leaving_both_lists (calculate_checksum (λ s, s))
           prev curr "b.example.com" H1 H2 H3 H4
           (plain REMOVED "b.example.com" "in_scope")
           (or_intror (or_intror (or_introl Hin))) eq_refl).
Defined.

(** With the checksum call resolved and the checksums different, a rule
    that moves from out of scope to in scope is reported once, as a
    modification, and in no other list.  [compare] itself never gets
    there. *)
Lemma compare_body_move (checksum : ScopeData → string)
    (previous current : ScopeData) (x : string) :
  checksum previous ≠ checksum current →
  x ∈ out_of_scope previous → x ∈ in_scope current → x ∉ in_scope previous →
  let r := compare_body checksum previous current in
  let m := moved x "in_scope" "out_of_scope" "in_scope" in
  let only := filter (λ c, ScopeChange.item c = x) in
  only (changes r) = [m] ∧ only (modifications r) = [m]
  ∧ only (additions r) = [] ∧ only (removals r) = [].
Proof.
  intros Hck Hpo Hci Hpi r m only. subst r only. unfold compare_body.
  rewrite bool_decide_eq_false_2 by done. simpl.
  set (pi := list_to_set (in_scope previous) : gset string).
  set (ci := list_to_set (in_scope current) : gset string).
  set (po := list_to_set (out_of_scope previous) : gset string).
  set (co := list_to_set (out_of_scope current) : gset string).
  assert (Hxpo : x ∈ po) by (unfold po; by rewrite elem_of_list_to_set).
  assert (Hxci : x ∈ ci) by (unfold ci; by rewrite elem_of_list_to_set).
  assert (Hxpi : x ∉ pi) by (unfold pi; by rewrite elem_of_list_to_set).
  assert (He1 : added_in_emit po x = Some (Modifications, m))
    by (unfold added_in_emit; by rewrite bool_decide_eq_true_2).
  assert (He4 : removed_out_emit ci x = None)
    by (unfold removed_out_emit; rewrite bool_decide_eq_false_2; tauto).
  assert (HL1 : x ∈ elements (ci ∖ pi))
    by (rewrite elem_of_elements, elem_of_difference; tauto).
  assert (HL2 : x ∉ elements (pi ∖ ci))
    by (rewrite elem_of_elements, elem_of_difference; tauto).
  assert (HL3 : x ∉ elements (co ∖ po))
    by (rewrite elem_of_elements, elem_of_difference; tauto).
  assert (Hgen : ∀ pick proj res,
    (pick = fmap snd ∧ proj = l_changes)
    ∨ (pick = into Additions ∧ proj = l_additions)
    ∨ (pick = into Removals ∧ proj = l_removals)
    ∨ (pick = into Modifications ∧ proj = l_modifications) →
    filter (λ c, ScopeChange.item c = x)
      (omap (λ i, pick (added_in_emit po i)) (elements (ci ∖ pi))) = res →
    filter (λ c, ScopeChange.item c = x) (proj (classify pi ci po co)) = res).
  { intros pick proj res Hpick Hres.
    rewrite (classify_filter _ _ _ _ pick proj x Hpick).
    pose proof (pick_cases pick proj Hpick) as Hp.
    rewrite Hres.
    rewrite (filter_item_none (λ i, pick (removed_in_emit po co i)));
      [|by apply emits_name_item, removed_in_emit_item|by left].
    rewrite (filter_item_none (λ i, pick (added_out_emit pi i)));
      [|by apply emits_name_item, added_out_emit_item|by left].
    rewrite (filter_item_none (λ i, pick (removed_out_emit ci i)));
      [|by apply emits_name_item, removed_out_emit_item
       |right; rewrite He4; by apply pick_none].
    by rewrite !app_nil_r. }
  repeat split.
  - apply (Hgen (fmap snd) l_changes); [eauto|].
    apply filter_item_single; [|apply NoDup_elements|done|by rewrite He1].
    apply emits_name_item; [by left|apply added_in_emit_item].
  - apply (Hgen (into Modifications) l_modifications); [eauto 6|].
    apply filter_item_single; [|apply NoDup_elements|done|by rewrite He1].
    apply emits_name_item; [right; eauto|apply added_in_emit_item].
  - apply (Hgen (into Additions) l_additions); [eauto|].
    apply filter_item_none; [|right; by rewrite He1].
    apply emits_name_item; [right; eauto|apply added_in_emit_item].
  - apply (Hgen (into Removals) l_removals); [eauto 6|].
    apply filter_item_none; [|right; by rewrite He1].
    apply emits_name_item; [right; eauto|apply added_in_emit_item].
Qed.

(** ** Scope validation *)

Section ValidatorFacts.
Context `{IpAddressLib}.

(** What one rule adds to the buckets. *)
Lemma categorize_rule_cases (rule : string) (b : Buckets) :
  (PyStr.contains_char "*" rule = true
     ∧ _categorize_rule rule b
       = {| patterns := patterns b ++ [(rule, wildcard_regex rule)];
            cidrs := cidrs b; exact := exact b |})
  ∨ (PyStr.contains_char "*" rule = false ∧ PyStr.contains_char "/" rule = true
     ∧ ∃ n, ip_network rule = Some n
       ∧ _categorize_rule rule b
         = {| patterns := patterns b; cidrs := cidrs b ++ [(rule, n)];
              exact := exact b |})
  ∨ (PyStr.contains_char "*" rule = false ∧ PyStr.contains_char "/" rule = true
     ∧ ip_network rule = None ∧ _categorize_rule rule b = b)
  ∨ (PyStr.contains_char "*" rule = false ∧ PyStr.contains_char "/" rule = false
     ∧ _categorize_rule rule b
       = {| patterns := patterns b; cidrs := cidrs b;
            exact := exact b ∪ {[ PyStr.lower rule ]} |}).
Proof.
  unfold _categorize_rule.
  destruct (PyStr.contains_char "*" rule); [by left|].
  destruct (PyStr.contains_char "/" rule); [|by do 3 right].
  destruct (ip_network rule) as [n|] eqn:En.
  - right; left. eauto.
  - right; right; left. eauto.
Qed.

Lemma from_rules_step (rule : string) (b0 : Buckets) :
  from_rules [rule] b0 (_categorize_rule rule b0).
Proof.
  unfold from_rules.
  destruct (categorize_rule_cases rule b0)
    as [(Hs & ->)|[(Hs & Hd & n & Hn & ->)|[(Hs & Hd & Hn & ->)|(Hs & Hd & ->)]]];
    simpl; split_and!; intros;
    rewrite ?elem_of_app, ?list_elem_of_singleton, ?elem_of_union,
      ?elem_of_singleton;
    try setoid_rewrite list_elem_of_singleton;
    naive_solver congruence.
Qed.

Lemma from_rules_app (l1 l2 : list string) (b0 b1 b2 : Buckets) :
  from_rules l1 b0 b1 → from_rules l2 b1 b2 → from_rules (l1 ++ l2) b0 b2.
Proof.
  intros (P1 & C1 & E1) (P2 & C2 & E2). split_and!; intros.
  - rewrite P2, P1, elem_of_app. naive_solver.
  - rewrite C2, C1, elem_of_app. naive_solver.
  - rewrite E2, E1. setoid_rewrite elem_of_app. naive_solver.
Qed.

Lemma foldl_categorize_from_rules (items : list string) (b0 : Buckets) :
  from_rules items b0 (foldl (λ b item, _categorize_rule item b) b0 items).
Proof.
  revert b0. induction items as [|rule items IH]; intros b0; simpl.
  - split_and!; intros; try setoid_rewrite elem_of_nil; naive_solver.
  - apply (from_rules_app [rule] items _ (_categorize_rule rule b0));
      [apply from_rules_step|apply IH].
Qed.
End ValidatorFacts.

Lemma lower_char_slash (c : ascii) :
  bool_decide (PyStr.lower_char c = "/"%char) = bool_decide (c = "/"%char).
Proof.
  destruct c as [[] [] [] [] [] [] [] []]; vm_compute; reflexivity.
Qed.

Lemma contains_slash_lower (s : string) :
  PyStr.contains_char "/" (PyStr.lower s) = PyStr.contains_char "/" s.
Proof.
  induction s as [|c s IH]; simpl; [done|]. by rewrite IH, lower_char_slash.
Qed.

Section ValidatorTheorems.
Context `{IpAddressLib}.

Lemma first_pattern_None (s : string) (ps : list (string * list re_item)) :
  first_pattern s ps = None →
  ∀ r p, (r, p) ∈ ps → pattern_match p s = false.
Proof.
  induction ps as [|[r' p'] ps IH]; simpl; intros Hnone r p Hin.
  - by apply elem_of_nil in Hin.
  - destruct (pattern_match p' s) eqn:Em; [done|].
    apply elem_of_cons in Hin as [[= -> ->]|Hin]; [done|by eapply IH].
Qed.

Lemma first_pattern_Some (s : string) (ps : list (string * list re_item)) (r : string) :
  first_pattern s ps = Some r → ∃ p, (r, p) ∈ ps ∧ pattern_match p s = true.
Proof.
  induction ps as [|[r' p'] ps IH]; simpl; [done|].
  destruct (pattern_match p' s) eqn:Em.
  - intros [= ->]. exists p'. split; [by left|done].
  - intros Hs. destruct (IH Hs) as (p & Hin & Hm). exists p. split; [by right|done].
Qed.

Lemma first_cidr_None (ip : ip_addr) (cs : list (string * ip_net)) :
  first_cidr ip cs = None → ∀ r n, (r, n) ∈ cs → ip_in ip n = false.
Proof.
  induction cs as [|[r' n'] cs IH]; simpl; intros Hnone r n Hin.
  - by apply elem_of_nil in Hin.
  - destruct (ip_in ip n') eqn:Em; [done|].
    apply elem_of_cons in Hin as [[= -> ->]|Hin]; [done|by eapply IH].
Qed.

Lemma first_cidr_Some (ip : ip_addr) (cs : list (string * ip_net)) (r : string) :
  first_cidr ip cs = Some r → ∃ n, (r, n) ∈ cs ∧ ip_in ip n = true.
Proof.
  induction cs as [|[r' n'] cs IH]; simpl; [done|].
  destruct (ip_in ip n') eqn:Em.
  - intros [= ->]. exists n'. split; [by left|done].
  - intros Hs. destruct (IH Hs) as (n & Hin & Hm). exists n. split; [by right|done].
Qed.


Lemma first_parent_Some (s : string) (ex : gset string) (item : string) :
  first_parent s ex = Some item → item ∈ ex.
Proof.
  unfold first_parent. intros Hf.
  apply fmap_Some in Hf as ([i x] & Hfind & ->).
  apply list_find_Some in Hfind as (Hl & _ & _). simpl.
  apply elem_of_elements. by eapply list_elem_of_lookup_2.
Qed.

(** The buckets of a validator are those its scope data compiles to. *)
Lemma out_buckets_from_rules (sd : ScopeData) :
  from_rules (out_of_scope sd) no_buckets (out_buckets (new_ScopeValidator sd)).
Proof. apply foldl_categorize_from_rules. Qed.

Lemma in_buckets_from_rules (sd : ScopeData) :
  from_rules (in_scope sd) no_buckets (in_buckets (new_ScopeValidator sd)).
Proof. apply foldl_categorize_from_rules. Qed.


Lemma not_in_no_buckets :
  (∀ r p, (r, p) ∉ patterns no_buckets) ∧ (∀ r n, (r, n) ∉ cidrs no_buckets)
  ∧ (∀ s, s ∉ exact no_buckets).
Proof.
  split_and!; intros; simpl; [apply not_elem_of_nil..|apply not_elem_of_empty].
Qed.


(** C7, as the code has it.  [validate] normalizes the candidate by
    lowercasing it and stripping surrounding whitespace, and by nothing
    else: two candidates that agree after that get the same
    classification. *)
Theorem validate_normalizes_case_and_whitespace (v : ScopeValidator)
    (a b : string) :
  PyStr.strip (PyStr.lower a) = PyStr.strip (PyStr.lower b) →
  ValidationResult.in_scope (validate v a) = ValidationResult.in_scope (validate v b)
  ∧ ValidationResult.reason (validate v a) = ValidationResult.reason (validate v b)
  ∧ ValidationResult.matched_rule (validate v a)
    = ValidationResult.matched_rule (validate v b).
Proof.
  intros Heq. unfold validate. rewrite Heq.
  repeat case_match; done.
Qed.
End ValidatorTheorems.



Lemma validate_normalizes_case_and_whitespace_witness :
  let v := @new_ScopeValidator IPv4.lib (mkScope ["example.com"] []) in
  PyStr.strip (PyStr.lower "  Example.COM ") = PyStr.strip (PyStr.lower "example.com")
  ∧ ValidationResult.in_scope (validate v "  Example.COM ")
    = ValidationResult.in_scope (validate v "example.com")
  ∧ ValidationResult.reason (validate v "  Example.COM ")
    = ValidationResult.reason (validate v "example.com")
  ∧ ValidationResult.matched_rule (validate v "  Example.COM ")
    = ValidationResult.matched_rule (validate v "example.com").
Proof.
  intros v.
  assert (H1 : PyStr.strip (PyStr.lower "  Example.COM ")
               = PyStr.strip (PyStr.lower "example.com")) by reflexivity.
  split; [exact H1|].
  exact (@validate_normalizes_case_and_whitespace IPv4.lib v "  Example.COM "
           "example.com" H1).
Defined.

(** C7 as stated fails: [validate] removes neither the scheme nor the
    trailing slash, so the URL form of an in-scope host is not found in
    scope, although [normalize_scope_item] maps it to that host. *)
Lemma validate_keeps_scheme_and_slash :
  let v := @new_ScopeValidator IPv4.lib (mkScope ["example.com"] []) in
  normalize_scope_item "https://example.com/" = "example.com"
  ∧ validate v "example.com"
    = {| ValidationResult.asset := "example.com";
         ValidationResult.in_scope := true;
         ValidationResult.reason := "Explicitly in scope";
         ValidationResult.matched_rule := Some "example.com" |}
  ∧ validate v "https://example.com/"
    = {| ValidationResult.asset := "https://example.com/";
         ValidationResult.in_scope := false;
         ValidationResult.reason := "Not found in program scope";
         ValidationResult.matched_rule := None |}.
Proof. intros v. split; [reflexivity|]. split; vm_compute; reflexivity. Qed.

(** * Further properties *)

(** ** Scope validation *)

Section ValidatorExtras.
Context `{IpAddressLib}.

Lemma first_pattern_is_None (s : string) (ps : list (string * list re_item)) :
  first_pattern s ps = None ↔ ∀ r p, (r, p) ∈ ps → pattern_match p s = false.
Proof.
  split; [apply first_pattern_None|].
  induction ps as [|[r p] ps IH]; simpl; intros Hall; [done|].
  rewrite (Hall r p) by (by left). apply IH. intros r' p' Hin.
  apply (Hall r' p'). by right.
Qed.

Lemma first_cidr_is_None (ip : ip_addr) (cs : list (string * ip_net)) :
  first_cidr ip cs = None ↔ ∀ r n, (r, n) ∈ cs → ip_in ip n = false.
Proof.
  split; [apply first_cidr_None|].
  induction cs as [|[r n] cs IH]; simpl; intros Hall; [done|].
  rewrite (Hall r n) by (by left). apply IH. intros r' n' Hin.
  apply (Hall r' n'). by right.
Qed.

Lemma first_parent_is_None (s : string) (ex : gset string) :
  first_parent s ex = None ↔ ∀ item, item ∈ ex → _is_subdomain_of s item = false.
Proof.
  unfold first_parent. rewrite fmap_None, list_find_None, Forall_forall.
  setoid_rewrite elem_of_elements.
  split; intros Hall item Hin; specialize (Hall item Hin).
  - by destruct (_is_subdomain_of s item).
  - by rewrite Hall.
Qed.

(** A side of the scope misses a candidate exactly when none of its rules
    matches it. *)
Lemma buckets_miss_iff (items : list string) (b : Buckets) (al : string) :
  from_rules items no_buckets b →
  ((al ∉ exact b) ∧ first_pattern al (patterns b) = None
   ∧ cidr_block al (cidrs b) = None)
  ↔ ∀ r, r ∈ items → rule_matches r al = false.
Proof.
  intros (HP & HC & HE).
  destruct not_in_no_buckets as (NP & NC & NE).
  rewrite first_pattern_is_None. split.
  - intros (Hex & Hpat & Hcidr) r Hin. unfold rule_matches.
    destruct (PyStr.contains_char "*" r) eqn:Estar.
    { apply (Hpat r). apply HP. right. done. }
    destruct (PyStr.contains_char "/" r) eqn:Eslash.
    + destruct (ip_network r) as [n|] eqn:En; [|done].
      destruct (ip_address al) as [ip|] eqn:Eip; [|done].
      unfold cidr_block in Hcidr. rewrite Eip in Hcidr.
      destruct (_is_ip al); [|done]. simpl.
      apply (first_cidr_None _ _ Hcidr r n). apply HC. right. done.
    + apply bool_decide_eq_false. intros ->. apply Hex, HE.
      right. exists r. done.
  - intros Hall. split_and!.
    + intros Hin. apply HE in Hin as [Hin|(r & Hin & Hs & Hd & ->)];
        [by apply NE in Hin|].
      specialize (Hall r Hin). unfold rule_matches in Hall.
      rewrite Hs, Hd in Hall. by apply bool_decide_eq_false in Hall.
    + intros r p Hin. apply HP in Hin as [Hin|(Hin & Hs & ->)];
        [by apply NP in Hin|].
      specialize (Hall r Hin). unfold rule_matches in Hall. by rewrite Hs in Hall.
    + unfold cidr_block. destruct (_is_ip al) eqn:Eisip; [|done].
      destruct (ip_address al) as [ip|] eqn:Eip; [|done].
      apply first_cidr_is_None. intros r n Hin.
      apply HC in Hin as [Hin|(Hin & Hs & Hd & Hn)]; [by apply NC in Hin|].
      specialize (Hall r Hin). unfold rule_matches in Hall.
      by rewrite Hs, Hd, Hn, Eip, Eisip in Hall.
Qed.

Lemma cidr_block_Some_inv (s : string) (cs : list (string * ip_net)) (r : string) :
  cidr_block s cs = Some r →
  _is_ip s = true ∧ ∃ ip n, ip_address s = Some ip ∧ (r, n) ∈ cs ∧ ip_in ip n = true.
Proof.
  unfold cidr_block. destruct (_is_ip s); [|done].
  destruct (ip_address s) as [ip|]; [|done].
  intros Hs. destruct (first_cidr_Some _ _ _ Hs) as (n & Hin & Hc). eauto 6.
Qed.

(** A side of the scope hits a candidate exactly when one of its rules
    matches it. *)
Lemma buckets_hit_iff (items : list string) (b : Buckets) (al : string) :
  from_rules items no_buckets b →
  ((al ∈ exact b) ∨ is_Some (first_pattern al (patterns b))
   ∨ is_Some (cidr_block al (cidrs b)))
  ↔ ∃ r, r ∈ items ∧ rule_matches r al = true.
Proof.
  intros Hfrom.
  pose proof (buckets_miss_iff items b al Hfrom) as Hmiss.
  destruct Hfrom as (HP & HC & HE).
  destruct not_in_no_buckets as (NP & NC & NE).
  split.
  - intros [Hex|[[r Hpat]|[r Hcidr]]].
    + apply HE in Hex as [Hex|(r & Hin & Hs & Hd & ->)]; [by apply NE in Hex|].
      exists r. split; [done|]. unfold rule_matches. rewrite Hs, Hd.
      by apply bool_decide_eq_true.
    + apply first_pattern_Some in Hpat as (p & Hin & Hm).
      apply HP in Hin as [Hin|(Hin & Hs & ->)]; [by apply NP in Hin|].
      exists r. split; [done|]. unfold rule_matches. by rewrite Hs.
    + apply cidr_block_Some_inv in Hcidr as (Hisip & ip & n & Hip & Hin & Hc).
      apply HC in Hin as [Hin|(Hin & Hs & Hd & Hn)]; [by apply NC in Hin|].
      exists r. split; [done|]. unfold rule_matches.
      by rewrite Hs, Hd, Hn, Hip, Hisip, Hc.
  - intros (r & Hin & Hm).
    destruct (decide (al ∈ exact b)) as [|Hex]; [by left|].
    destruct (first_pattern al (patterns b)) as [r1|] eqn:E1; [right; left; eauto|].
    destruct (cidr_block al (cidrs b)) as [r2|] eqn:E2; [right; right; eauto|].
    exfalso.
    assert (Hall : ∀ r, r ∈ items → rule_matches r al = false)
      by (apply Hmiss; done).
    rewrite (Hall r Hin) in Hm. done.
Qed.

Lemma first_parent_Some_iff (s : string) (ex : gset string) :
  is_Some (first_parent s ex) ↔ ∃ item, item ∈ ex ∧ _is_subdomain_of s item = true.
Proof.
  split.
  - intros [item Hf]. exists item. split; [by eapply first_parent_Some|].
    unfold first_parent in Hf.
    apply fmap_Some in Hf as ([i x] & Hfind & ->).
    by apply list_find_Some in Hfind as (_ & Hsub & _).
  - intros (item & Hin & Hsub).
    destruct (first_parent s ex) eqn:E; [eauto|].
    apply first_parent_is_None with (item := item) in E; [congruence|done].
Qed.

(** X1.  [validate] answers in scope exactly when no rule of the
    out-of-scope list matches the lowercased, stripped asset and either a
    rule of the in-scope list matches it or it is a strict subdomain of an
    exact in-scope entry. *)
Theorem validate_in_scope_iff (sd : ScopeData) (asset : string) :
  let al := PyStr.strip (PyStr.lower asset) in
  ValidationResult.in_scope (validate (new_ScopeValidator sd) asset) = true
  ↔ (∀ r, r ∈ out_of_scope sd → rule_matches r al = false)
    ∧ ((∃ r, r ∈ in_scope sd ∧ rule_matches r al = true)
       ∨ (∃ r, r ∈ in_scope sd ∧ PyStr.contains_char "*" r = false
               ∧ PyStr.contains_char "/" r = false
               ∧ _is_subdomain_of al (PyStr.lower r) = true)).
Proof.
  intros al.
  pose proof (out_buckets_from_rules sd) as Ho.
  pose proof (in_buckets_from_rules sd) as Hi.
  pose proof (buckets_miss_iff _ _ al Ho) as Hout.
  pose proof (buckets_hit_iff _ _ al Hi) as Hin.
  pose proof (first_parent_Some_iff al (exact (in_buckets (new_ScopeValidator sd))))
    as Hpar.
  assert (Hsub : (∃ item, item ∈ exact (in_buckets (new_ScopeValidator sd))
                          ∧ _is_subdomain_of al item = true)
                 ↔ ∃ r, r ∈ in_scope sd ∧ PyStr.contains_char "*" r = false
                        ∧ PyStr.contains_char "/" r = false
                        ∧ _is_subdomain_of al (PyStr.lower r) = true).
  { destruct Hi as (_ & _ & HE). destruct not_in_no_buckets as (_ & _ & NE).
    split.
    - intros (item & Hex & Hs).
      apply HE in Hex as [Hex|(r & Hr & Hst & Hd & ->)]; [by apply NE in Hex|].
      eauto 6.
    - intros (r & Hr & Hst & Hd & Hs). exists (PyStr.lower r). split; [|done].
      apply HE. right. eauto. }
  rewrite <- Hsub, <- Hpar, <- Hin, <- Hout. clear Hsub Hpar Hin Hout Ho Hi.
  unfold validate. fold al.
  unfold out_scope_exact, out_scope_patterns, out_scope_cidrs,
    in_scope_exact, in_scope_patterns, in_scope_cidrs.
  set (ob := out_buckets (new_ScopeValidator sd)).
  set (ib := in_buckets (new_ScopeValidator sd)).
  clearbody ob ib al.
  case_bool_decide as Hoe; simpl; [naive_solver|].
  destruct (first_pattern al (patterns ob)) as [r1|] eqn:E1; simpl; [naive_solver|].
  destruct (cidr_block al (cidrs ob)) as [r2|] eqn:E2; simpl; [naive_solver|].
  case_bool_decide as Hie; simpl; [naive_solver|].
  destruct (first_pattern al (patterns ib)) as [r3|] eqn:E3; simpl; [naive_solver|].
  destruct (cidr_block al (cidrs ib)) as [r4|] eqn:E4; simpl; [naive_solver|].
  destruct (first_parent al (exact ib)) as [r5|] eqn:E5; simpl; [naive_solver|].
  split; [done|].
  intros (_ & [[?|[[? ?]|[? ?]]]|[? ?]]); done.
Qed.

(** X2.  Default deny: with an empty in-scope list every asset is out of
    scope. *)
Theorem empty_in_scope_denies_all (sd : ScopeData) (asset : string) :
  in_scope sd = [] →
  ValidationResult.in_scope (validate (new_ScopeValidator sd) asset) = false.
Proof.
  intros Hempty. unfold validate.
  unfold in_scope_exact, in_scope_patterns, in_scope_cidrs.
  assert (Hib : in_buckets (new_ScopeValidator sd) = no_buckets)
    by (simpl; by rewrite Hempty).
  rewrite Hib.
  assert (Hcb : ∀ s, cidr_block s (cidrs no_buckets) = None).
  { intros s. unfold cidr_block. destruct (_is_ip s); [|done].
    by destruct (ip_address s). }
  assert (Hfp : ∀ s, first_parent s (exact no_buckets) = None).
  { intros s. unfold first_parent. simpl. by rewrite elements_empty. }
  rewrite Hcb, Hfp.
  rewrite (bool_decide_eq_false_2 (_ ∈ exact no_buckets))
    by apply not_elem_of_empty.
  simpl. by repeat case_match.
Qed.

(** X3.  [filter_in_scope] and [filter_out_scope] split a batch: together
    they hold every asset of the batch once, an asset is kept by
    [filter_in_scope] exactly when [validate] puts it in scope, and
    [validate_batch] answers for the assets in their order. *)
Theorem filters_partition_batch (v : ScopeValidator) (assets : list string) :
  filter_in_scope v assets ++ filter_out_scope v assets ≡ₚ assets
  ∧ (∀ a, a ∈ filter_in_scope v assets
          ↔ a ∈ assets ∧ ValidationResult.in_scope (validate v a) = true)
  ∧ (∀ a, a ∈ filter_out_scope v assets
          ↔ a ∈ assets ∧ ValidationResult.in_scope (validate v a) = false)
  ∧ ValidationResult.asset <$> validate_batch v assets = assets
  ∧ filter_in_scope v assets
    = ValidationResult.asset
        <$> filter (λ r, ValidationResult.in_scope r = true) (validate_batch v assets).
Proof.
  unfold filter_in_scope, filter_out_scope, validate_batch. split_and!.
  - apply filter_app_complement.
  - intros a. rewrite list_elem_of_filter. tauto.
  - intros a. rewrite list_elem_of_filter, not_true_iff_false. tauto.
  - induction assets as [|a l IH]; simpl; [done|]. f_equal; [|done].
    unfold validate. by repeat case_match.
  - induction assets as [|a l IH]; [done|].
    rewrite fmap_cons, !filter_cons. simpl.
    repeat case_decide; simpl; try done; try congruence.
    f_equal; [|done]. unfold validate. by repeat case_match.
Qed.
End ValidatorExtras.

(** ** Strings *)

Lemma string_app_cons (x : ascii) (a b : string) :
  String x a +:+ b = String x (a +:+ b).
Proof. reflexivity. Qed.

Lemma string_app_nil (b : string) : EmptyString +:+ b = b.
Proof. reflexivity. Qed.

Lemma string_app_assoc (a b c : string) : (a +:+ b) +:+ c = a +:+ (b +:+ c).
Proof.
  induction a as [|x a IH]; [done|].
  rewrite !string_app_cons. f_equal. exact IH.
Qed.

Lemma string_app_length (a b : string) :
  String.length (a +:+ b) = (String.length a + String.length b)%nat.
Proof.
  induction a as [|x a IH]; [done|].
  rewrite string_app_cons. simpl. f_equal. exact IH.
Qed.

Lemma endswith_spec (s suf : string) :
  PyStr.endswith s suf = true ↔ ∃ p, s = p +:+ suf.
Proof.
  induction s as [|c s IH]; simpl.
  - rewrite orb_false_r, bool_decide_eq_true. split.
    + intros <-. by exists EmptyString.
    + intros ([|x p] & Hp); [by rewrite string_app_nil in Hp|].
      rewrite string_app_cons in Hp. discriminate.
  - rewrite orb_true_iff, bool_decide_eq_true, IH. split.
    + intros [<-|(p & ->)]; [by exists EmptyString|by exists (String c p)].
    + intros ([|x p] & Hp); [left; by rewrite string_app_nil in Hp|].
      rewrite string_app_cons in Hp. injection Hp as -> ->. right. eauto.
Qed.

Lemma is_subdomain_spec (subdomain domain : string) :
  _is_subdomain_of subdomain domain = true
  ↔ ∃ p, subdomain = p +:+ "." +:+ domain.
Proof.
  unfold _is_subdomain_of. case_bool_decide as Heq.
  - split; [done|]. intros (p & Hp). subst domain.
    apply (f_equal String.length) in Hp.
    rewrite !string_app_length in Hp. simpl in Hp. lia.
  - apply endswith_spec.
Qed.

(** X4.  The subdomain test holds exactly for the names that put a
    non-empty prefix ending in a dot before the domain; it never holds
    between a name and itself, and it composes: a subdomain of a subdomain
    of [c] is a subdomain of [c]. *)
Theorem is_subdomain_of_strict_order (a b c : string) :
  (_is_subdomain_of a b = true ↔ ∃ p, a = p +:+ "." +:+ b)
  ∧ _is_subdomain_of a a = false
  ∧ (_is_subdomain_of a b = true → _is_subdomain_of b c = true →
     _is_subdomain_of a c = true)
  ∧ (_is_subdomain_of a b = true → (String.length b < String.length a)%nat).
Proof.
  split_and!.
  - apply is_subdomain_spec.
  - unfold _is_subdomain_of. by rewrite bool_decide_eq_true_2.
  - rewrite !is_subdomain_spec. intros (p & ->) (q & ->).
    exists (p +:+ "." +:+ q). by rewrite !string_app_assoc.
  - rewrite is_subdomain_spec. intros (p & ->).
    rewrite !string_app_length. simpl. lia.
Qed.

(** *** Case and whitespace *)

Lemma lower_char_idemp (c : ascii) :
  PyStr.lower_char (PyStr.lower_char c) = PyStr.lower_char c.
Proof. destruct c as [[] [] [] [] [] [] [] []]; vm_compute; reflexivity. Qed.

Lemma isspace_lower_char (c : ascii) :
  PyStr.isspace (PyStr.lower_char c) = PyStr.isspace c.
Proof. destruct c as [[] [] [] [] [] [] [] []]; vm_compute; reflexivity. Qed.

Lemma lower_char_star (c : ascii) :
  bool_decide (PyStr.lower_char c = "*"%char) = bool_decide (c = "*"%char).
Proof. destruct c as [[] [] [] [] [] [] [] []]; vm_compute; reflexivity. Qed.

Lemma lower_idemp (s : string) : PyStr.lower (PyStr.lower s) = PyStr.lower s.
Proof. induction s as [|c s IH]; simpl; [done|]. by rewrite lower_char_idemp, IH. Qed.

Lemma lower_lstrip (s : string) :
  PyStr.lower (PyStr.lstrip_by PyStr.isspace s)
  = PyStr.lstrip_by PyStr.isspace (PyStr.lower s).
Proof.
  induction s as [|c s IH]; simpl; [done|].
  rewrite isspace_lower_char. by destruct (PyStr.isspace c).
Qed.

Lemma lower_rstrip (s : string) :
  PyStr.lower (PyStr.rstrip_by PyStr.isspace s)
  = PyStr.rstrip_by PyStr.isspace (PyStr.lower s).
Proof.
  induction s as [|c s IH]; simpl; [done|].
  rewrite <- IH, isspace_lower_char.
  destruct (PyStr.rstrip_by PyStr.isspace s); simpl; [|done].
  by destruct (PyStr.isspace c).
Qed.

Lemma lower_strip (s : string) :
  PyStr.lower (PyStr.strip s) = PyStr.strip (PyStr.lower s).
Proof. unfold PyStr.strip. by rewrite lower_rstrip, lower_lstrip. Qed.

Lemma rstrip_by_idemp (p : ascii → bool) (s : string) :
  PyStr.rstrip_by p (PyStr.rstrip_by p s) = PyStr.rstrip_by p s.
Proof.
  induction s as [|c s IH]; simpl; [done|].
  destruct (PyStr.rstrip_by p s) as [|d r] eqn:E.
  - destruct (p c) eqn:Ep; simpl; [done|]. by rewrite Ep.
  - change (PyStr.rstrip_by p (String c (String d r))) with
      (match PyStr.rstrip_by p (String d r) with
       | EmptyString => if p c then EmptyString else String c EmptyString
       | r' => String c r'
       end).
    by rewrite IH.
Qed.


Lemma lstrip_by_starts_clean (p : ascii → bool) (s : string) :
  starts_clean p (PyStr.lstrip_by p s).
Proof.
  induction s as [|c s IH]; simpl; [done|].
  destruct (p c) eqn:Ep; [done|]. simpl. done.
Qed.

Lemma lstrip_by_clean (p : ascii → bool) (s : string) :
  starts_clean p s → PyStr.lstrip_by p s = s.
Proof. destruct s as [|c s]; simpl; [done|]. by intros ->. Qed.

Lemma rstrip_by_starts_clean (p : ascii → bool) (s : string) :
  starts_clean p s → starts_clean p (PyStr.rstrip_by p s).
Proof.
  destruct s as [|c s]; simpl; [done|]. intros Hc.
  destruct (PyStr.rstrip_by p s); simpl; [by rewrite Hc|done].
Qed.

Lemma strip_idemp (s : string) : PyStr.strip (PyStr.strip s) = PyStr.strip s.
Proof.
  unfold PyStr.strip.
  rewrite (lstrip_by_clean PyStr.isspace (PyStr.rstrip_by _ _))
    by apply rstrip_by_starts_clean, lstrip_by_starts_clean.
  apply rstrip_by_idemp.
Qed.

(** X8.  What [normalize_scope_item] returns is in lower case and has no
    whitespace at either end: lowering or stripping it again changes
    nothing.  The same holds for the form [validate] gives a candidate. *)
Theorem normalize_scope_item_lower_stripped (item : string) :
  PyStr.lower (normalize_scope_item item) = normalize_scope_item item
  ∧ PyStr.strip (normalize_scope_item item) = normalize_scope_item item
  ∧ PyStr.strip (PyStr.lower (PyStr.strip (PyStr.lower item)))
    = PyStr.strip (PyStr.lower item).
Proof.
  unfold normalize_scope_item. split_and!.
  - by rewrite lower_strip, lower_idemp.
  - apply strip_idemp.
  - by rewrite lower_strip, lower_idemp, strip_idemp.
Qed.

(** ** Wildcard patterns *)

Lemma wildcard_regex_cons (c : ascii) (r : string) :
  wildcard_regex (String c r)
  = (if bool_decide (c = "*"%char) then DotStar else Lit c) :: wildcard_regex r.
Proof. reflexivity. Qed.

Lemma pattern_match_star (p : list re_item) (s : string) :
  pattern_match (DotStar :: p) s
  = pattern_match p s
    || match s with
       | String d s' =>
           negb (bool_decide (d = PyStr.newline)) && pattern_match (DotStar :: p) s'
       | EmptyString => false
       end.
Proof. by destruct s. Qed.

Lemma pattern_match_lit (c : ascii) (p : list re_item) (s : string) :
  pattern_match (Lit c :: p) s
  = match s with
    | String d s' =>
        bool_decide (PyStr.lower_char c = PyStr.lower_char d) && pattern_match p s'
    | EmptyString => false
    end.
Proof. reflexivity. Qed.

Lemma pattern_match_needs_literals (p : list re_item) (s : string) :
  pattern_match p s = true → (literal_count p ≤ String.length s)%nat.
Proof.
  revert s. induction p as [|[c|] p IH]; intros s.
  - simpl. lia.
  - rewrite pattern_match_lit. destruct s as [|d s]; [done|].
    intros [_ Hm]%andb_true_iff. apply IH in Hm. simpl. lia.
  - induction s as [|d s IHs]; rewrite pattern_match_star.
    + rewrite orb_false_r. intros Hm. apply IH in Hm. simpl in *. lia.
    + intros [Hm|[_ Hm]%andb_true_iff]%orb_true_iff.
      * apply IH in Hm. simpl in *. lia.
      * apply IHs in Hm. simpl in *. lia.
Qed.

Lemma literal_count_no_star (d : string) :
  PyStr.contains_char "*" d = false →
  literal_count (wildcard_regex d) = String.length d.
Proof.
  induction d as [|c d IH]; [done|].
  simpl PyStr.contains_char. intros [Hc Hd]%orb_false_iff.
  rewrite wildcard_regex_cons, Hc. simpl. by rewrite IH.
Qed.

(** X5.  A wildcard rule [*.d] does not cover the bare name [d]: it
    matches no candidate that is not longer than [d]. *)
Theorem wildcard_excludes_bare_domain (d candidate : string) :
  PyStr.contains_char "*" d = false →
  (String.length candidate ≤ String.length d)%nat →
  pattern_match (wildcard_regex ("*." +:+ d)) candidate = false.
Proof.
  intros Hd Hlen.
  destruct (pattern_match _ candidate) eqn:Em; [|done].
  apply pattern_match_needs_literals in Em.
  change ("*." +:+ d) with (String "*" (String "." d)) in Em.
  rewrite !wildcard_regex_cons in Em. simpl in Em.
  rewrite literal_count_no_star in Em by done. lia.
Qed.

Lemma literals_match (a b : string) :
  PyStr.contains_char "*" a = false → PyStr.lower a = PyStr.lower b →
  pattern_match (wildcard_regex a) b = true.
Proof.
  revert b. induction a as [|c a IH]; intros [|d b]; try done.
  simpl PyStr.contains_char. simpl PyStr.lower.
  intros [Hc Ha]%orb_false_iff [= Hcd Hab].
  rewrite wildcard_regex_cons, Hc, pattern_match_lit.
  rewrite bool_decide_eq_true_2 by done. by apply IH.
Qed.

Lemma star_skips (p : list re_item) (x s : string) :
  PyStr.contains_char PyStr.newline x = false →
  pattern_match p s = true →
  pattern_match (DotStar :: p) (x +:+ s) = true.
Proof.
  intros Hx Hm. induction x as [|c x IH].
  - rewrite string_app_nil, pattern_match_star, Hm. done.
  - simpl in Hx. apply orb_false_iff in Hx as [Hc Hx].
    rewrite string_app_cons, pattern_match_star, Hc, IH by done.
    by rewrite orb_true_r.
Qed.

(** X6.  A wildcard rule [*suffix] matches every candidate that ends with
    the suffix, whatever the case of either, when what stands before the
    suffix has no line feed. *)
Theorem wildcard_matches_suffix (suffix x tail : string) :
  PyStr.contains_char "*" suffix = false →
  PyStr.contains_char PyStr.newline x = false →
  PyStr.lower tail = PyStr.lower suffix →
  pattern_match (wildcard_regex ("*" +:+ suffix)) (x +:+ tail) = true.
Proof.
  intros Hs Hx Heq.
  change ("*" +:+ suffix) with (String "*" suffix).
  rewrite wildcard_regex_cons. simpl bool_decide. cbv iota.
  apply star_skips; [done|]. by apply literals_match.
Qed.

Lemma lower_char_newline (c : ascii) :
  bool_decide (PyStr.lower_char c = PyStr.newline) = bool_decide (c = PyStr.newline).
Proof. destruct c as [[] [] [] [] [] [] [] []]; vm_compute; reflexivity. Qed.

Lemma contains_star_lower (s : string) :
  PyStr.contains_char "*" (PyStr.lower s) = PyStr.contains_char "*" s.
Proof.
  induction s as [|c s IH]; simpl; [done|]. by rewrite IH, lower_char_star.
Qed.

Lemma pattern_match_lower_rule (rule candidate : string) :
  pattern_match (wildcard_regex (PyStr.lower rule)) candidate
  = pattern_match (wildcard_regex rule) candidate.
Proof.
  revert candidate. induction rule as [|c rule IH]; intros candidate; [done|].
  simpl PyStr.lower. rewrite !wildcard_regex_cons, lower_char_star.
  destruct (bool_decide (c = "*"%char)).
  - induction candidate as [|d s IHs];
      rewrite (pattern_match_star (wildcard_regex (PyStr.lower rule))),
        (pattern_match_star (wildcard_regex rule)), IH; [done|].
    by rewrite IHs.
  - rewrite !pattern_match_lit. destruct candidate as [|d s]; [done|].
    by rewrite lower_char_idemp, IH.
Qed.

Lemma pattern_match_lower_candidate (p : list re_item) (candidate : string) :
  pattern_match p (PyStr.lower candidate) = pattern_match p candidate.
Proof.
  revert candidate. induction p as [|[c|] p IH]; intros candidate.
  - destruct candidate as [|d [|e s]]; try done.
    simpl. by rewrite lower_char_newline.
  - rewrite !pattern_match_lit. destruct candidate as [|d s]; [done|].
    simpl PyStr.lower. cbv iota. by rewrite lower_char_idemp, IH.
  - induction candidate as [|d s IHs].
    + rewrite !pattern_match_star. by rewrite IH.
    + simpl PyStr.lower.
      rewrite (pattern_match_star p (String _ _)),
        (pattern_match_star p (String d s)).
      change (String (PyStr.lower_char d) (PyStr.lower s))
        with (PyStr.lower (String d s)).
      rewrite IH. simpl PyStr.lower. cbv iota.
      by rewrite lower_char_newline, IHs.
Qed.

Section RuleCase.
Context `{IpAddressLib}.

(** X7.  Rules are matched without regard to case: an exact or wildcard
    rule decides a candidate as its lower-case form does, and a wildcard
    rule decides a candidate as it decides the candidate's lower-case
    form. *)
Theorem rule_matching_ignores_case (rule candidate : string) :
  PyStr.contains_char "/" rule = false →
  rule_matches (PyStr.lower rule) candidate = rule_matches rule candidate
  ∧ pattern_match (wildcard_regex rule) (PyStr.lower candidate)
    = pattern_match (wildcard_regex rule) candidate.
Proof.
  intros Hslash. split; [|apply pattern_match_lower_candidate].
  unfold rule_matches.
  rewrite contains_star_lower, contains_slash_lower, Hslash.
  by rewrite pattern_match_lower_rule, lower_idemp.
Qed.
End RuleCase.

(** ** Scope comparison, continued *)

(** X9.  The checksum of a snapshot does not depend on the order of its
    two lists, whatever the metadata of the two snapshots. *)
Theorem checksum_ignores_order (sha : string → string) (a b : ScopeData) :
  in_scope a ≡ₚ in_scope b → out_of_scope a ≡ₚ out_of_scope b →
  calculate_checksum sha a = calculate_checksum sha b.
Proof.
  intros Hi Ho. unfold calculate_checksum.
  by rewrite (sorted_permutation _ _ Hi), (sorted_permutation _ _ Ho).
Qed.

Lemma foldl_invariant {A B} (P : A → Prop) (f : A → B → A) (l : list B) (a : A) :
  P a → (∀ a b, P a → P (f a b)) → P (foldl f a l).
Proof.
  intros Ha Hstep. revert a Ha. induction l as [|b l IH]; simpl; [done|].
  intros a Ha. apply IH. by apply Hstep.
Qed.

Lemma loop_only (f : string → option ScopeChange.t) (l : list string) (x : string) :
  names_its_item f → NoDup l →
  filter (λ c, ScopeChange.item c = x) (omap f l)
  = if decide (x ∈ l) then option_list (f x) else [].
Proof.
  intros Hf Hnd. case_decide as Hin.
  - destruct (f x) as [c|] eqn:Ex; simpl.
    + by apply filter_item_single.
    + apply filter_item_none; [done|by right].
  - apply filter_item_none; [done|by left].
Qed.

(** What [classify] holds about one item, loop by loop. *)
Lemma classify_only (prev_in curr_in prev_out curr_out : gset string)
    (pick : option (Bucket * ScopeChange.t) → option ScopeChange.t)
    (proj : ChangeLists → list ScopeChange.t) (x : string) :
  (pick = fmap snd ∧ proj = l_changes)
  ∨ (pick = into Additions ∧ proj = l_additions)
  ∨ (pick = into Removals ∧ proj = l_removals)
  ∨ (pick = into Modifications ∧ proj = l_modifications) →
  filter (λ c, ScopeChange.item c = x)
    (proj (classify prev_in curr_in prev_out curr_out))
  = (if decide (x ∈ curr_in ∖ prev_in)
     then option_list (pick (added_in_emit prev_out x)) else [])
    ++ (if decide (x ∈ prev_in ∖ curr_in)
        then option_list (pick (removed_in_emit prev_out curr_out x)) else [])
    ++ (if decide (x ∈ curr_out ∖ prev_out)
        then option_list (pick (added_out_emit prev_in x)) else [])
    ++ (if decide (x ∈ prev_out ∖ curr_out)
        then option_list (pick (removed_out_emit curr_in x)) else []).
Proof.
  intros Hpick.
  rewrite (classify_filter _ _ _ _ pick proj x Hpick).
  pose proof (pick_cases pick proj Hpick) as Hp.
  rewrite !loop_only;
    try apply NoDup_elements;
    try (by apply emits_name_item;
         [|first [apply added_in_emit_item | apply removed_in_emit_item
                 | apply added_out_emit_item | apply removed_out_emit_item]]).
  repeat f_equal; apply decide_ext; apply elem_of_elements.
Qed.

Lemma append_addition_consistent (c : ScopeChange.t) (st : ChangeLists) :
  ScopeChange.change_type c = ADDED → ScopeChange.details c = None →
  lists_consistent st → lists_consistent (append_addition c st).
Proof.
  intros Ht Hd (Hp & Ha & Hr & Hm). unfold lists_consistent. simpl. split_and!; try done.
  - rewrite Hp. solve_Permutation.
  - apply Forall_app. split; [done|]. by apply Forall_singleton.
Qed.

Lemma append_removal_consistent (c : ScopeChange.t) (st : ChangeLists) :
  ScopeChange.change_type c = REMOVED → ScopeChange.details c = None →
  lists_consistent st → lists_consistent (append_removal c st).
Proof.
  intros Ht Hd (Hp & Ha & Hr & Hm). unfold lists_consistent. simpl. split_and!; try done.
  - rewrite Hp. solve_Permutation.
  - apply Forall_app. split; [done|]. by apply Forall_singleton.
Qed.

Lemma append_modification_consistent (c : ScopeChange.t) (st : ChangeLists) :
  ScopeChange.change_type c = MODIFIED → is_Some (ScopeChange.details c) →
  lists_consistent st → lists_consistent (append_modification c st).
Proof.
  intros Ht Hd (Hp & Ha & Hr & Hm). unfold lists_consistent. simpl. split_and!; try done.
  - rewrite Hp. solve_Permutation.
  - apply Forall_app. split; [done|]. by apply Forall_singleton.
Qed.

Lemma classify_consistent (prev_in curr_in prev_out curr_out : gset string) :
  lists_consistent (classify prev_in curr_in prev_out curr_out).
Proof.
  unfold classify.
  repeat (apply foldl_invariant; [|clear; intros st item Hst]).
  - unfold lists_consistent; simpl. by split_and!.
  - unfold added_in_step. case_bool_decide.
    + by apply append_modification_consistent.
    + by apply append_addition_consistent.
  - unfold removed_in_step. repeat case_bool_decide; try done.
    + by apply append_modification_consistent.
    + by apply append_removal_consistent.
  - unfold added_out_step. case_bool_decide; [|done].
    by apply append_addition_consistent.
  - unfold removed_out_step. case_bool_decide; [|done].
    by apply append_removal_consistent.
Qed.

(** X10.  In the comparison the body of [compare] builds, [changes] holds
    exactly the elements of [additions], [removals] and [modifications]
    together, each once; additions are of type added, removals of type
    removed, both without details, and modifications are of type modified
    and carry details. *)
Theorem changes_partitioned_by_type (checksum : ScopeData → string)
    (previous current : ScopeData) :
  let r := compare_body checksum previous current in
  changes r ≡ₚ additions r ++ removals r ++ modifications r
  ∧ length (changes r)
    = (length (additions r) + length (removals r) + length (modifications r))%nat
  ∧ Forall (λ c, ScopeChange.change_type c = ADDED ∧ ScopeChange.details c = None)
      (additions r)
  ∧ Forall (λ c, ScopeChange.change_type c = REMOVED ∧ ScopeChange.details c = None)
      (removals r)
  ∧ Forall (λ c, ScopeChange.change_type c = MODIFIED
                 ∧ is_Some (ScopeChange.details c))
      (modifications r)
  ∧ (has_changes r = true ↔ changes r ≠ []).
Proof.
  intros r. subst r. unfold compare_body. case_bool_decide as Hck; simpl.
  - split_and!; try done. all: split; [done|by intros []].
  - destruct (classify_consistent (list_to_set (in_scope previous))
                (list_to_set (in_scope current))
                (list_to_set (out_of_scope previous))
                (list_to_set (out_of_scope current))) as (Hp & Ha & Hr & Hm).
    split_and!; try done.
    + rewrite Hp, !length_app. lia.
    + rewrite bool_decide_eq_true. destruct (l_changes _); simpl; split; try done; lia.
Qed.

Lemma has_changes_false (checksum : ScopeData → string) (previous current : ScopeData) :
  changes (compare_body checksum previous current) = [] →
  has_changes (compare_body checksum previous current) = false.
Proof. unfold compare_body. case_bool_decide; simpl; [done|]. by intros ->. Qed.

(** X11.  An item whose membership in the in-scope list and in the
    out-of-scope list is the same in both snapshots gets no ScopeChange;
    so two snapshots whose lists hold the same items yield no change at
    all, also when duplicates make their checksums differ. *)
Theorem unchanged_items_get_no_change (checksum : ScopeData → string)
    (previous current : ScopeData) :
  let r := compare_body checksum previous current in
  (∀ x c, (x ∈ in_scope previous ↔ x ∈ in_scope current) →
          (x ∈ out_of_scope previous ↔ x ∈ out_of_scope current) →
          c ∈ changes r → ScopeChange.item c ≠ x)
  ∧ ((∀ x, x ∈ in_scope previous ↔ x ∈ in_scope current) →
     (∀ x, x ∈ out_of_scope previous ↔ x ∈ out_of_scope current) →
     changes r = [] ∧ has_changes r = false).
Proof.
  intros r.
  assert (Hitem : ∀ x c, (x ∈ in_scope previous ↔ x ∈ in_scope current) →
          (x ∈ out_of_scope previous ↔ x ∈ out_of_scope current) →
          c ∈ changes r → ScopeChange.item c ≠ x).
  { intros x c Hin Hout Hc. subst r. unfold compare_body in Hc.
    case_bool_decide as Hck; simpl in Hc; [by apply elem_of_nil in Hc|].
    intros Hx. revert Hc.
    apply (filter_nil_not_elem_of (λ c, ScopeChange.item c = x)); [|done].
    rewrite (classify_only _ _ _ _ (fmap snd) l_changes x) by eauto.
    rewrite !decide_False; [done|..];
      rewrite elem_of_difference, !elem_of_list_to_set; tauto. }
  split; [exact Hitem|].
  intros Hin Hout.
  assert (Hnil : changes r = []).
  { destruct (changes r) as [|c l] eqn:E; [done|]. exfalso.
    apply (Hitem (ScopeChange.item c) c (Hin _) (Hout _)); [|done].
    rewrite ?E. by left. }
  split; [done|]. by apply has_changes_false.
Qed.

(** Decides what the four loops hold about an item from the hypotheses on
    its memberships. *)
Ltac settle_item :=
  repeat match goal with
  | |- context [decide (?x ∈ ?S ∖ ?T)] =>
      let Hd := fresh "Hd" in
      destruct (decide (x ∈ S ∖ T)) as [Hd|Hd];
      rewrite elem_of_difference, !elem_of_list_to_set in Hd
  end;
  unfold added_in_emit, removed_in_emit, added_out_emit, removed_out_emit;
  repeat match goal with
  | |- context [bool_decide ?P] =>
      let Hb := fresh "Hb" in
      destruct (bool_decide_reflect P) as [Hb|Hb];
      rewrite ?elem_of_list_to_set in Hb
  end;
  simpl; try reflexivity; exfalso; tauto.

Lemma compare_body_lists (checksum : ScopeData → string)
    (previous current : ScopeData) :
  checksum previous ≠ checksum current →
  let st := classify (list_to_set (in_scope previous)) (list_to_set (in_scope current))
              (list_to_set (out_of_scope previous))
              (list_to_set (out_of_scope current)) in
  let r := compare_body checksum previous current in
  changes r = l_changes st ∧ additions r = l_additions st
  ∧ removals r = l_removals st ∧ modifications r = l_modifications st.
Proof.
  intros Hck st r. subst r st. unfold compare_body.
  by rewrite bool_decide_eq_false_2.
Qed.

(** X12.  With different checksums, a rule that moves from in scope to
    out of scope is reported once, as a modification of category
    out_of_scope with details from in_scope to out_of_scope, and in no
    other list. *)
Theorem move_to_out_of_scope_reported_once (checksum : ScopeData → string)
    (previous current : ScopeData) (x : string) :
  checksum previous ≠ checksum current →
  x ∈ in_scope previous → x ∉ out_of_scope previous →
  x ∈ out_of_scope current → x ∉ in_scope current →
  let r := compare_body checksum previous current in
  let m := moved x "out_of_scope" "in_scope" "out_of_scope" in
  let only := filter (λ c, ScopeChange.item c = x) in
  only (changes r) = [m] ∧ only (modifications r) = [m]
  ∧ only (additions r) = [] ∧ only (removals r) = [].
Proof.
  intros Hck Hpi Hpo Hco Hci r m only. subst r m only.
  destruct (compare_body_lists checksum previous current Hck)
    as (-> & -> & -> & ->).
  split_and!.
  - rewrite (classify_only _ _ _ _ (fmap snd) l_changes x) by eauto. settle_item.
  - rewrite (classify_only _ _ _ _ (into Modifications) l_modifications x) by eauto 6.
    settle_item.
  - rewrite (classify_only _ _ _ _ (into Additions) l_additions x) by eauto.
    settle_item.
  - rewrite (classify_only _ _ _ _ (into Removals) l_removals x) by eauto 6.
    settle_item.
Qed.

(** X13.  With different checksums, an item that is in no list but one,
    in one snapshot only, is reported once: as an addition to that list
    when it is new, as a removal from it when it is gone. *)
Theorem plain_changes_reported_once (checksum : ScopeData → string)
    (previous current : ScopeData) (x : string) :
  checksum previous ≠ checksum current →
  let r := compare_body checksum previous current in
  let only := filter (λ c, ScopeChange.item c = x) in
  let nowhere_else (a b c : list string) := (x ∉ a) ∧ (x ∉ b) ∧ (x ∉ c) in
  (x ∈ in_scope current →
   nowhere_else (in_scope previous) (out_of_scope previous) (out_of_scope current) →
   only (changes r) = [plain ADDED x "in_scope"]
   ∧ only (additions r) = [plain ADDED x "in_scope"])
  ∧ (x ∈ in_scope previous →
     nowhere_else (in_scope current) (out_of_scope previous) (out_of_scope current) →
     only (changes r) = [plain REMOVED x "in_scope"]
     ∧ only (removals r) = [plain REMOVED x "in_scope"])
  ∧ (x ∈ out_of_scope current →
     nowhere_else (in_scope previous) (in_scope current) (out_of_scope previous) →
     only (changes r) = [plain ADDED x "out_of_scope"]
     ∧ only (additions r) = [plain ADDED x "out_of_scope"])
  ∧ (x ∈ out_of_scope previous →
     nowhere_else (in_scope previous) (in_scope current) (out_of_scope current) →
     only (changes r) = [plain REMOVED x "out_of_scope"]
     ∧ only (removals r) = [plain REMOVED x "out_of_scope"]).
Proof.
  intros Hck r only nowhere_else. subst r only nowhere_else.
  destruct (compare_body_lists checksum previous current Hck)
    as (Ec & Ea & Er & _). rewrite Ec, Ea, Er. clear Ec Ea Er.
  split_and!; intros Hx (H1 & H2 & H3); split.
  - rewrite (classify_only _ _ _ _ (fmap snd) l_changes x) by eauto. settle_item.
  - rewrite (classify_only _ _ _ _ (into Additions) l_additions x) by eauto.
    settle_item.
  - rewrite (classify_only _ _ _ _ (fmap snd) l_changes x) by eauto. settle_item.
  - rewrite (classify_only _ _ _ _ (into Removals) l_removals x) by eauto 6.
    settle_item.
  - rewrite (classify_only _ _ _ _ (fmap snd) l_changes x) by eauto. settle_item.
  - rewrite (classify_only _ _ _ _ (into Additions) l_additions x) by eauto.
    settle_item.
  - rewrite (classify_only _ _ _ _ (fmap snd) l_changes x) by eauto. settle_item.
  - rewrite (classify_only _ _ _ _ (into Removals) l_removals x) by eauto 6.
    settle_item.
Qed.

(** ** Change detection, continued *)

Lemma sets_differ (X Y : gset string) :
  X ≠ Y → bool_decide (Y ∖ X ≠ ∅) || bool_decide (X ∖ Y ≠ ∅) = true.
Proof.
  intros Hne. apply orb_true_iff.
  destruct (decide (Y ∖ X = ∅)) as [E1|E1];
    [|left; by apply bool_decide_eq_true].
  destruct (decide (X ∖ Y = ∅)) as [E2|E2];
    [|right; by apply bool_decide_eq_true].
  exfalso. apply Hne. apply set_eq. intros x.
  assert (H1 : x ∉ Y ∖ X) by (rewrite E1; apply not_elem_of_empty).
  assert (H2 : x ∉ X ∖ Y) by (rewrite E2; apply not_elem_of_empty).
  rewrite elem_of_difference in H1, H2.
  destruct (decide (x ∈ X)), (decide (x ∈ Y)); tauto.
Qed.

(** Every check either leaves the state alone or records its own field. *)
Lemma check_http_status_step a nd st :
  check_http_status a nd st
  = if status_reported a nd
    then record_and_append a "http_status" (str_if_truthy (Asset.http_status a))
           (str_if_truthy (default None (NewData.http_status nd))) st
    else st.
Proof.
  unfold check_http_status, status_reported.
  destruct (NewData.http_status nd); [|done]. by case_bool_decide.
Qed.

Lemma check_content_length_step a nd st :
  check_content_length a nd st
  = if length_reported a nd
    then record_and_append a "content_length"
           (Some (pretty (default 0%Z (Asset.content_length a))))
           (Some (pretty (default 0%Z (default None (NewData.content_length nd))))) st
    else st.
Proof.
  unfold check_content_length, length_reported.
  destruct (NewData.content_length nd); [|done]. simpl.
  destruct (0 <? _)%Z; [|done]. simpl. by destruct (exceeds_threshold _ _).
Qed.

Lemma check_technologies_step a nd st :
  ∃ o n, check_technologies a nd st
  = if technologies_reported a nd
    then record_and_append a "technologies" o n st else st.
Proof.
  unfold check_technologies, technologies_reported.
  destruct (NewData.technologies nd) as [new|]; [|by exists None, None].
  case_bool_decide as Hne; [|by exists None, None].
  rewrite (sets_differ _ _ Hne). eauto.
Qed.

Lemma check_page_title_step a nd st :
  check_page_title a nd st
  = if title_reported a nd
    then record_and_append a "page_title" (Asset.page_title a)
           (default None (NewData.page_title nd)) st
    else st.
Proof.
  unfold check_page_title, title_reported.
  destruct (NewData.page_title nd); [|done]. by case_bool_decide.
Qed.

Lemma check_response_hash_step a nd st :
  check_response_hash a nd st
  = if hash_reported a nd
    then record_and_append a "response_hash" (Asset.response_hash a)
           (default None (NewData.response_hash nd)) st
    else st.
Proof.
  unfold check_response_hash, hash_reported.
  by destruct (NewData.response_hash nd).
Qed.

Lemma check_resolved_ips_step a nd st :
  ∃ o n, check_resolved_ips a nd st
  = if ips_reported a nd
    then record_and_append a "resolved_ips" o n st else st.
Proof.
  unfold check_resolved_ips, ips_reported.
  destruct (NewData.resolved_ips nd) as [new|]; [|by exists None, None].
  case_bool_decide; [eauto|by exists None, None].
Qed.

(** The list [_detect_changes] returns, field by field. *)
Lemma changed_fields_closed_form (a : Asset.t) (nd : NewData.t) :
  changed_fields (_detect_changes a nd)
  = when (status_reported a nd) "http_status"
    ++ when (length_reported a nd) "content_length"
    ++ when (technologies_reported a nd) "technologies"
    ++ when (title_reported a nd) "page_title"
    ++ when (hash_reported a nd) "response_hash"
    ++ when (ips_reported a nd) "resolved_ips".
Proof.
  unfold _detect_changes.
  destruct (check_resolved_ips_step a nd
    (check_response_hash a nd (check_page_title a nd
      (check_technologies a nd (check_content_length a nd
        (check_http_status a nd {| changed_fields := []; recorded := [] |}))))))
    as (o6 & n6 & ->).
  rewrite check_response_hash_step, check_page_title_step.
  destruct (check_technologies_step a nd
      (check_content_length a nd
        (check_http_status a nd {| changed_fields := []; recorded := [] |})))
    as (o3 & n3 & ->).
  rewrite check_content_length_step, check_http_status_step.
  destruct (status_reported a nd), (length_reported a nd),
    (technologies_reported a nd), (title_reported a nd), (hash_reported a nd),
    (ips_reported a nd); reflexivity.
Qed.

Lemma detect_nothing (a : Asset.t) (nd : NewData.t) :
  status_reported a nd = false → length_reported a nd = false →
  technologies_reported a nd = false → title_reported a nd = false →
  hash_reported a nd = false → ips_reported a nd = false →
  _detect_changes a nd = {| changed_fields := []; recorded := [] |}.
Proof.
  intros H1 H2 H3 H4 H5 H6. unfold _detect_changes.
  destruct (check_resolved_ips_step a nd
    (check_response_hash a nd (check_page_title a nd
      (check_technologies a nd (check_content_length a nd
        (check_http_status a nd {| changed_fields := []; recorded := [] |}))))))
    as (o6 & n6 & ->).
  rewrite check_response_hash_step, check_page_title_step.
  destruct (check_technologies_step a nd
      (check_content_length a nd
        (check_http_status a nd {| changed_fields := []; recorded := [] |})))
    as (o3 & n3 & ->).
  rewrite check_content_length_step, check_http_status_step.
  by rewrite H1, H2, H3, H4, H5, H6.
Qed.

(** An asset that already stores what a probe record carries. *)
Lemma detect_nothing_when_stored (a : Asset.t) (nd : NewData.t) :
  (∀ v, NewData.http_status nd = Some v → Asset.http_status a = v) →
  (∀ v, NewData.content_length nd = Some v → Asset.content_length a = v) →
  (∀ v, NewData.technologies nd = Some v → Asset.technologies a = v) →
  (∀ v, NewData.page_title nd = Some v → Asset.page_title a = v) →
  (∀ v, NewData.response_hash nd = Some v → Asset.response_hash a = v) →
  (∀ v, NewData.resolved_ips nd = Some v → Asset.resolved_ips a = v) →
  _detect_changes a nd = {| changed_fields := []; recorded := [] |}.
Proof.
  intros H1 H2 H3 H4 H5 H6. apply detect_nothing.
  - unfold status_reported. destruct (NewData.http_status nd) as [v|]; [|done].
    rewrite (H1 v eq_refl). by apply bool_decide_eq_false_2; intros [].
  - unfold length_reported. destruct (NewData.content_length nd) as [v|]; [|done].
    rewrite (H2 v eq_refl). unfold exceeds_threshold.
    rewrite Z.sub_diag. simpl Z.abs.
    destruct (Z.ltb_spec 0 (default 0%Z v)); [|done]. simpl.
    apply Z.ltb_ge. lia.
  - unfold technologies_reported.
    destruct (NewData.technologies nd) as [v|]; [|done].
    rewrite (H3 v eq_refl). by apply bool_decide_eq_false_2; intros [].
  - unfold title_reported. destruct (NewData.page_title nd) as [v|]; [|done].
    rewrite (H4 v eq_refl). by apply bool_decide_eq_false_2; intros [].
  - unfold hash_reported. destruct (NewData.response_hash nd) as [v|]; [|done].
    rewrite (H5 v eq_refl).
    rewrite (bool_decide_eq_false_2 (v ≠ v)) by (by intros []).
    by rewrite andb_false_r.
  - unfold ips_reported. destruct (NewData.resolved_ips nd) as [v|]; [|done].
    rewrite (H6 v eq_refl). by apply bool_decide_eq_false_2; intros [].
Qed.

Lemma session_commit_probe_fields (db_now : Z) (loaded obj : Asset.t) :
  let row := session_commit db_now loaded obj in
  Asset.http_status row = Asset.http_status obj
  ∧ Asset.content_length row = Asset.content_length obj
  ∧ Asset.technologies row = Asset.technologies obj
  ∧ Asset.page_title row = Asset.page_title obj
  ∧ Asset.response_hash row = Asset.response_hash obj
  ∧ Asset.resolved_ips row = Asset.resolved_ips obj.
Proof.
  unfold session_commit. case_bool_decide as Heq; [by subst|].
  by repeat case_bool_decide.
Qed.

Lemma stored_after_eq (now db_now : Z) (stored : Asset.t) (nd : NewData.t) :
  stored_after now db_now stored nd
  = session_commit db_now stored
      (set_attributes nd (set_is_alive true (set_last_seen now stored))).
Proof. unfold stored_after. by rewrite compare_and_update_existing. Qed.

(** X14.  Probing an asset twice with the same record reports nothing
    the second time: after [compare_and_update] and the commit, a second
    [compare_and_update] with the same new_data returns no changed field
    and adds no change row, whatever the times of the two calls. *)
Theorem second_identical_probe_reports_nothing (now1 db1 now2 db2 fresh pid : Z)
    (ty v : string) (stored : Asset.t) (nd : NewData.t) :
  let row := stored_after now1 db1 stored nd in
  let second := compare_and_update now2 db2 fresh (Some row) pid ty v nd in
  is_new second = false ∧ out_changed_fields second = []
  ∧ out_recorded second = [].
Proof.
  intros row second. subst second row. rewrite stored_after_eq.
  destruct (session_commit_probe_fields db1 stored
              (set_attributes nd (set_is_alive true (set_last_seen now1 stored))))
    as (E1 & E2 & E3 & E4 & E5 & E6).
  revert E1 E2 E3 E4 E5 E6.
  generalize (session_commit db1 stored
                (set_attributes nd (set_is_alive true (set_last_seen now1 stored)))).
  intros row E1 E2 E3 E4 E5 E6.
  unfold compare_and_update, create_or_update. simpl.
  rewrite set_attributes_empty.
  rewrite detect_nothing_when_stored; [done|..]; simpl; intros w Hw.
  - rewrite E1. simpl. by rewrite Hw.
  - rewrite E2. simpl. by rewrite Hw.
  - rewrite E3. simpl. by rewrite Hw.
  - rewrite E4. simpl. by rewrite Hw.
  - rewrite E5. simpl. by rewrite Hw.
  - rewrite E6. simpl. by rewrite Hw.
Qed.

Ltac settle_sublist :=
  repeat first [apply sublist_nil | apply sublist_skip | apply sublist_cons].

Lemma recorded_aligned (a : Asset.t) (nd : NewData.t) :
  AssetChange.field_name <$> recorded (_detect_changes a nd)
    = changed_fields (_detect_changes a nd)
  ∧ Forall (λ r, AssetChange.change_type r = CT_MODIFIED
                 ∧ AssetChange.asset_id r = Asset.id a)
      (recorded (_detect_changes a nd)).
Proof.
  unfold _detect_changes.
  destruct (check_resolved_ips_step a nd
    (check_response_hash a nd (check_page_title a nd
      (check_technologies a nd (check_content_length a nd
        (check_http_status a nd {| changed_fields := []; recorded := [] |}))))))
    as (o6 & n6 & ->).
  rewrite check_response_hash_step, check_page_title_step.
  destruct (check_technologies_step a nd
      (check_content_length a nd
        (check_http_status a nd {| changed_fields := []; recorded := [] |})))
    as (o3 & n3 & ->).
  rewrite check_content_length_step, check_http_status_step.
  destruct (status_reported a nd), (length_reported a nd),
    (technologies_reported a nd), (title_reported a nd), (hash_reported a nd),
    (ips_reported a nd); (split; [reflexivity|repeat constructor]).
Qed.

(** X15.  [_detect_changes] reports each field at most once and in a
    fixed order: its list is a sublist of http_status, content_length,
    technologies, page_title, response_hash, resolved_ips.  It adds one
    change row per reported field, in the same order, each of type
    modified and for the asset's id. *)
Theorem changed_fields_ordered_and_recorded (a : Asset.t) (nd : NewData.t) :
  let d := _detect_changes a nd in
  changed_fields d `sublist_of` (fst <$> detect_fields)
  ∧ NoDup (changed_fields d)
  ∧ AssetChange.field_name <$> recorded d = changed_fields d
  ∧ length (recorded d) = length (changed_fields d)
  ∧ Forall (λ r, AssetChange.change_type r = CT_MODIFIED
                 ∧ AssetChange.asset_id r = Asset.id a) (recorded d).
Proof.
  intros d. subst d.
  destruct (recorded_aligned a nd) as [Hal Hall].
  assert (Hsub : changed_fields (_detect_changes a nd) `sublist_of` (fst <$> detect_fields)).
  { rewrite changed_fields_closed_form.
    destruct (status_reported a nd), (length_reported a nd),
      (technologies_reported a nd), (title_reported a nd), (hash_reported a nd),
      (ips_reported a nd); simpl; settle_sublist. }
  split_and!; try done.
  - eapply sublist_NoDup; [|exact Hsub]. by_computation.
  - by rewrite <- Hal, length_fmap.
Qed.

(** X16.  A reported field is a real change: whenever [_detect_changes]
    names a field, new_data has that key and storing new_data changes the
    value of that column. *)
Theorem reported_field_really_changes (a : Asset.t) (nd : NewData.t) (name : string) :
  name ∈ changed_fields (_detect_changes a nd) →
  ∃ c, (name, c) ∈ detect_fields ∧ has_key c nd = true
       ∧ column_value c (set_attributes nd a) ≠ column_value c a.
Proof.
  rewrite changed_fields_closed_form, !elem_of_app. unfold when.
  intros [Hin|[Hin|[Hin|[Hin|[Hin|Hin]]]]].
  - destruct (status_reported a nd) eqn:E; [|by apply elem_of_nil in Hin].
    apply list_elem_of_singleton in Hin as ->. exists c_http_status.
    unfold status_reported in E. simpl.
    destruct (NewData.http_status nd) as [new|] eqn:En; [|done].
    apply bool_decide_eq_true in E.
    split_and!; [apply list_elem_of_In; simpl; tauto|done|]. simpl.
    destruct (Asset.http_status a), new; simpl; congruence.
  - destruct (length_reported a nd) eqn:E; [|by apply elem_of_nil in Hin].
    apply list_elem_of_singleton in Hin as ->. exists c_content_length.
    unfold length_reported in E. simpl.
    destruct (NewData.content_length nd) as [new|] eqn:En; [|done].
    apply andb_true_iff in E as [Hpos Hex].
    apply Z.ltb_lt in Hpos. unfold exceeds_threshold in Hex. apply Z.ltb_lt in Hex.
    split_and!; [apply list_elem_of_In; simpl; tauto|done|]. simpl.
    destruct (Asset.content_length a) as [o|], new as [n|]; simpl in *;
      try lia; try congruence.
    intros [= ->]. rewrite Z.sub_diag in Hex. simpl in Hex. lia.
  - destruct (technologies_reported a nd) eqn:E; [|by apply elem_of_nil in Hin].
    apply list_elem_of_singleton in Hin as ->. exists c_technologies.
    unfold technologies_reported in E. simpl.
    destruct (NewData.technologies nd) as [new|] eqn:En; [|done].
    apply bool_decide_eq_true in E.
    split_and!; [apply list_elem_of_In; simpl; tauto|done|]. simpl.
    destruct (Asset.technologies a), new; simpl in *; congruence.
  - destruct (title_reported a nd) eqn:E; [|by apply elem_of_nil in Hin].
    apply list_elem_of_singleton in Hin as ->. exists c_page_title.
    unfold title_reported in E. simpl.
    destruct (NewData.page_title nd) as [new|] eqn:En; [|done].
    apply bool_decide_eq_true in E.
    split_and!; [apply list_elem_of_In; simpl; tauto|done|]. simpl.
    destruct (Asset.page_title a), new; simpl; congruence.
  - destruct (hash_reported a nd) eqn:E; [|by apply elem_of_nil in Hin].
    apply list_elem_of_singleton in Hin as ->. exists c_response_hash.
    unfold hash_reported in E. simpl.
    destruct (NewData.response_hash nd) as [new|] eqn:En; [|done].
    apply andb_true_iff in E as [_ E]. apply bool_decide_eq_true in E.
    split_and!; [apply list_elem_of_In; simpl; tauto|done|]. simpl.
    destruct (Asset.response_hash a), new; simpl; congruence.
  - destruct (ips_reported a nd) eqn:E; [|by apply elem_of_nil in Hin].
    apply list_elem_of_singleton in Hin as ->. exists c_resolved_ips.
    unfold ips_reported in E. simpl.
    destruct (NewData.resolved_ips nd) as [new|] eqn:En; [|done].
    apply bool_decide_eq_true in E.
    split_and!; [apply list_elem_of_In; simpl; tauto|done|]. simpl.
    destruct (Asset.resolved_ips a), new; simpl in *; congruence.
Qed.

Lemma in_changed_fields (a : Asset.t) (nd : NewData.t) (name : string) :
  name ∈ changed_fields (_detect_changes a nd)
  ↔ (name = "http_status" ∧ status_reported a nd = true)
    ∨ (name = "content_length" ∧ length_reported a nd = true)
    ∨ (name = "technologies" ∧ technologies_reported a nd = true)
    ∨ (name = "page_title" ∧ title_reported a nd = true)
    ∨ (name = "response_hash" ∧ hash_reported a nd = true)
    ∨ (name = "resolved_ips" ∧ ips_reported a nd = true).
Proof.
  rewrite changed_fields_closed_form, !elem_of_app. unfold when.
  destruct (status_reported a nd), (length_reported a nd),
    (technologies_reported a nd), (title_reported a nd), (hash_reported a nd),
    (ips_reported a nd);
    rewrite ?list_elem_of_singleton, ?elem_of_nil; naive_solver.
Qed.

(** X17.  Technologies and resolved IPs are compared as sets, a missing
    list counting as the empty one: the field is reported exactly when
    new_data has the key and the two sets differ, so a reordering or a
    repetition of the stored entries is never reported. *)
Theorem list_fields_compared_as_sets (a : Asset.t) (nd : NewData.t) :
  let set_of (x : option (list string)) : gset string := list_to_set (default [] x) in
  ("technologies" ∈ changed_fields (_detect_changes a nd)
   ↔ ∃ new, NewData.technologies nd = Some new
            ∧ set_of (Asset.technologies a) ≠ set_of new)
  ∧ ("resolved_ips" ∈ changed_fields (_detect_changes a nd)
     ↔ ∃ new, NewData.resolved_ips nd = Some new
              ∧ set_of (Asset.resolved_ips a) ≠ set_of new)
  ∧ (∀ old new, Asset.technologies a = Some old →
       NewData.technologies nd = Some (Some new) →
       (∀ x, x ∈ old ↔ x ∈ new) →
       "technologies" ∉ changed_fields (_detect_changes a nd))
  ∧ (∀ old new, Asset.resolved_ips a = Some old →
       NewData.resolved_ips nd = Some (Some new) →
       (∀ x, x ∈ old ↔ x ∈ new) →
       "resolved_ips" ∉ changed_fields (_detect_changes a nd)).
Proof.
  intros set_of.
  assert (Ht : "technologies" ∈ changed_fields (_detect_changes a nd)
               ↔ ∃ new, NewData.technologies nd = Some new
                        ∧ set_of (Asset.technologies a) ≠ set_of new).
  { rewrite in_changed_fields. unfold technologies_reported.
    destruct (NewData.technologies nd) as [new|].
    - rewrite bool_decide_eq_true. naive_solver.
    - naive_solver. }
  assert (Hi : "resolved_ips" ∈ changed_fields (_detect_changes a nd)
               ↔ ∃ new, NewData.resolved_ips nd = Some new
                        ∧ set_of (Asset.resolved_ips a) ≠ set_of new).
  { rewrite in_changed_fields. unfold ips_reported.
    destruct (NewData.resolved_ips nd) as [new|].
    - rewrite bool_decide_eq_true. naive_solver.
    - naive_solver. }
  split_and!; [exact Ht|exact Hi| |].
  - intros old new Ho Hn Hsame. rewrite Ht, Hn, Ho.
    intros (new' & [= <-] & Hne). apply Hne. subst set_of. simpl.
    apply set_eq. intros x. by rewrite !elem_of_list_to_set.
  - intros old new Ho Hn Hsame. rewrite Hi, Hn, Ho.
    intros (new' & [= <-] & Hne). apply Hne. subst set_of. simpl.
    apply set_eq. intros x. by rewrite !elem_of_list_to_set.
Qed.

(** X18.  A response hash is reported exactly when new_data has the key
    and the stored and the new hash are both non-empty and differ: going
    from or to a missing or empty hash is never reported. *)
Theorem response_hash_needs_both_hashes (a : Asset.t) (nd : NewData.t) :
  ("response_hash" ∈ changed_fields (_detect_changes a nd)
   ↔ ∃ old new, Asset.response_hash a = Some old
                ∧ NewData.response_hash nd = Some (Some new)
                ∧ old ≠ EmptyString ∧ new ≠ EmptyString ∧ old ≠ new)
  ∧ ((Asset.response_hash a = None ∨ Asset.response_hash a = Some EmptyString
      ∨ NewData.response_hash nd = Some None
      ∨ NewData.response_hash nd = Some (Some EmptyString)) →
     "response_hash" ∉ changed_fields (_detect_changes a nd)).
Proof.
  assert (Hiff : "response_hash" ∈ changed_fields (_detect_changes a nd)
   ↔ ∃ old new, Asset.response_hash a = Some old
                ∧ NewData.response_hash nd = Some (Some new)
                ∧ old ≠ EmptyString ∧ new ≠ EmptyString ∧ old ≠ new).
  { rewrite in_changed_fields. unfold hash_reported, truthy_str.
    destruct (NewData.response_hash nd) as [[new|]|],
      (Asset.response_hash a) as [old|]; simpl;
      rewrite ?andb_true_iff, ?negb_true_iff, ?bool_decide_eq_true,
        ?bool_decide_eq_false; naive_solver. }
  split; [exact Hiff|].
  rewrite Hiff. naive_solver.
Qed.

(** ** Storing the probe record *)

Lemma column_value_set_attributes_key (c : Column) (nd : NewData.t) (a : Asset.t)
    (v : PyVal) :
  key_value c nd = Some v → column_value c (set_attributes nd a) = v.
Proof.
  destruct c; simpl; intros Hkey;
    match type of Hkey with
    | _ <$> ?o = Some _ => destruct o; simpl in *; congruence
    end.
Qed.

Lemma has_key_key_value (c : Column) (nd : NewData.t) :
  has_key c nd = bool_decide (is_Some (key_value c nd)).
Proof.
  destruct c; simpl;
    match goal with
    | |- context [bool_decide (is_Some ?o)] =>
        destruct o; simpl; rewrite ?bool_decide_eq_true_2 by eauto;
        rewrite ?bool_decide_eq_false_2 by (by intros [? ?]); reflexivity
    end.
Qed.

(** X19.  [compare_and_update] stores every key of new_data: in the asset
    it returns, for a new and for an existing asset alike, a column that
    is a key of new_data holds the value given there.  For a new asset it
    reports nothing and the columns that are not keys hold the values of
    the inserted row. *)
Theorem compare_and_update_stores_new_data (now db_now fresh pid : Z) (ty v : string)
    (existing : option Asset.t) (nd : NewData.t) :
  let out := compare_and_update now db_now fresh existing pid ty v nd in
  (∀ c w, key_value c nd = Some w → column_value c (out_asset out) = w)
  ∧ (is_new out = true ↔ existing = None)
  ∧ (existing = None →
     out_changed_fields out = [] ∧ out_recorded out = []
     ∧ ∀ c, has_key c nd = false →
            column_value c (out_asset out)
            = column_value c (inserted_row db_now fresh pid ty v)).
Proof.
  intros out. subst out. split_and!.
  - intros c w Hkey. destruct existing as [stored|].
    + rewrite compare_and_update_existing.
      by apply column_value_set_attributes_key.
    + unfold compare_and_update, create_or_update. simpl.
      by apply column_value_set_attributes_key.
  - destruct existing; unfold compare_and_update, create_or_update; simpl;
      split; intros; congruence.
  - intros ->. unfold compare_and_update, create_or_update. simpl.
    split_and!; try done.
    intros c Hkey. rewrite set_attributes_empty.
    by apply column_value_set_attributes.
Qed.

(** X20.  For an existing asset [create_or_update] always returns it
    alive and seen now, even when the keyword arguments say otherwise;
    every other column takes the keyword argument when there is one and
    keeps its stored value when there is none. *)
Theorem create_or_update_revives (now db_now fresh pid : Z) (ty v : string)
    (stored : Asset.t) (kwargs : NewData.t) :
  let r := create_or_update now db_now fresh (Some stored) pid ty v kwargs in
  r.2 = false
  ∧ Asset.is_alive r.1 = true
  ∧ Asset.last_seen r.1 = now
  ∧ ∀ c, c ≠ c_is_alive → c ≠ c_last_seen →
         column_value c r.1 = default (column_value c stored) (key_value c kwargs).
Proof.
  intros r. subst r. unfold create_or_update. simpl. split_and!; try done.
  intros c Hal Hls.
  destruct (key_value c kwargs) as [w|] eqn:Ek; simpl.
  - transitivity (column_value c (set_attributes kwargs stored)).
    + by destruct c.
    + by apply column_value_set_attributes_key.
  - transitivity (column_value c (set_attributes kwargs stored)).
    + by destruct c.
    + apply column_value_set_attributes.
      rewrite has_key_key_value, Ek. by apply bool_decide_eq_false_2; intros [? ?].
Qed.

(** ** The parser registry *)

Section FactoryFacts.
Context {Kwargs Parser : Type}.
Implicit Types (reg : Registry Kwargs Parser) (cls : Kwargs → Parser).

Lemma dict_get_set_eq reg key cls :
  dict_get Kwargs Parser key (dict_set Kwargs Parser key cls reg) = Some cls.
Proof.
  induction reg as [|[k w] reg IH]; simpl.
  - by rewrite bool_decide_eq_true_2.
  - case_bool_decide as Hk; simpl.
    + by rewrite bool_decide_eq_true_2.
    + by rewrite bool_decide_eq_false_2.
Qed.

Lemma dict_get_set_ne reg key key' cls :
  key ≠ key' →
  dict_get Kwargs Parser key' (dict_set Kwargs Parser key cls reg)
  = dict_get Kwargs Parser key' reg.
Proof.
  intros Hne. induction reg as [|[k w] reg IH]; simpl.
  - by rewrite bool_decide_eq_false_2.
  - case_bool_decide as Hk; simpl.
    + subst k. by rewrite !bool_decide_eq_false_2.
    + case_bool_decide; [done|exact IH].
Qed.

Lemma dict_get_None_keys reg key :
  dict_get Kwargs Parser key reg = None ↔ key ∉ supported_platforms Kwargs Parser reg.
Proof.
  unfold supported_platforms. induction reg as [|[k w] reg IH]; simpl.
  - split; [intros _; apply not_elem_of_nil|done].
  - rewrite not_elem_of_cons. case_bool_decide as Hk.
    + split; [done|]. intros [Hne _]. by subst.
    + rewrite IH. split; [intros ?; split; [congruence|done]|by intros [_ ?]].
Qed.

(** X21.  A registered parser class is found again under its platform
    name in any case; registering it leaves the other platforms as they
    were; and [create] fails with an error exactly for the platforms that
    [supported_platforms] does not list. *)
Theorem factory_register_create reg platform platform' cls (kwargs : Kwargs) :
  (PyStr.lower platform' = PyStr.lower platform →
   create Kwargs Parser platform' kwargs (register Kwargs Parser platform cls reg)
   = inr (cls kwargs))
  ∧ (PyStr.lower platform' ≠ PyStr.lower platform →
     create Kwargs Parser platform' kwargs (register Kwargs Parser platform cls reg)
     = match create Kwargs Parser platform' kwargs reg with
       | inr p => inr p
       | inl _ =>
           inl ("Unsupported platform: " +:+ PyStr.lower platform'
                +:+ ". Supported: "
                +:+ PyStr.join ", "
                      (supported_platforms Kwargs Parser
                         (register Kwargs Parser platform cls reg)))
       end)
  ∧ ((∃ msg, create Kwargs Parser platform' kwargs reg = inl msg)
     ↔ PyStr.lower platform' ∉ supported_platforms Kwargs Parser reg)
  ∧ PyStr.lower platform
    ∈ supported_platforms Kwargs Parser (register Kwargs Parser platform cls reg).
Proof.
  unfold create, register. split_and!.
  - intros ->. by rewrite dict_get_set_eq.
  - intros Hne. rewrite dict_get_set_ne by done.
    by destruct (dict_get Kwargs Parser (PyStr.lower platform') reg).
  - rewrite <- dict_get_None_keys.
    destruct (dict_get Kwargs Parser (PyStr.lower platform') reg); split;
      try done; eauto. by intros [? ?].
  - destruct (decide (PyStr.lower platform
                      ∈ supported_platforms Kwargs Parser
                          (dict_set Kwargs Parser (PyStr.lower platform) cls reg)))
      as [|Hn]; [done|].
    apply dict_get_None_keys in Hn. by rewrite dict_get_set_eq in Hn.
Qed.
End FactoryFacts.

(** ** Categorizing scope items *)

Section CategorizeFacts.
Variable parse : string → option string * string.

Lemma categorize_step_lists (acc : Categories) (i : string) :
  let c := categorize_step parse acc i in
  let add (P : Prop) `{Decision P} (old : list string) :=
    if decide P then old ++ [parsed_value parse i] else old in
  cat_wildcard c = add (parsed_type parse i = "wildcard") (cat_wildcard acc)
  ∧ cat_domain c = add (parsed_type parse i = "domain") (cat_domain acc)
  ∧ cat_subdomain c = add (parsed_type parse i = "subdomain") (cat_subdomain acc)
  ∧ cat_ip c = add (parsed_type parse i = "ip") (cat_ip acc)
  ∧ cat_cidr c = add (parsed_type parse i = "cidr") (cat_cidr acc)
  ∧ cat_other c = add (parsed_type parse i ∉ known_types) (cat_other acc).
Proof.
  unfold categorize_step. fold (parsed_type parse i) (parsed_value parse i).
  generalize (parsed_type parse i). intros t. unfold known_types. simpl.
  destruct (decide (t = "wildcard")) as [->|H1];
    [split_and!; vm_compute; reflexivity|].
  destruct (decide (t = "domain")) as [->|H2];
    [split_and!; vm_compute; reflexivity|].
  destruct (decide (t = "subdomain")) as [->|H3];
    [split_and!; vm_compute; reflexivity|].
  destruct (decide (t = "ip")) as [->|H4];
    [split_and!; vm_compute; reflexivity|].
  destruct (decide (t = "cidr")) as [->|H5];
    [split_and!; vm_compute; reflexivity|].
  assert (Hknown : t ∉ ["wildcard"; "domain"; "subdomain"; "ip"; "cidr"]).
  { rewrite !not_elem_of_cons. split_and!; try done. apply not_elem_of_nil. }
  rewrite (decide_True (P := t ∉ _)) by done.
  destruct (decide (t = "other")) as [->|H6].
  - split_and!; vm_compute; reflexivity.
  - rewrite bool_decide_eq_false_2.
    + simpl. by split_and!.
    + rewrite !elem_of_cons, elem_of_nil. tauto.
Qed.

Lemma categorize_foldl (acc : Categories) (items : list string) :
  cat_wildcard (foldl (categorize_step parse) acc items)
  = cat_wildcard acc
    ++ (parsed_value parse <$> filter (λ i, parsed_type parse i = "wildcard") items)
  ∧ cat_domain (foldl (categorize_step parse) acc items)
    = cat_domain acc
      ++ (parsed_value parse <$> filter (λ i, parsed_type parse i = "domain") items)
  ∧ cat_subdomain (foldl (categorize_step parse) acc items)
    = cat_subdomain acc
      ++ (parsed_value parse <$> filter (λ i, parsed_type parse i = "subdomain") items)
  ∧ cat_ip (foldl (categorize_step parse) acc items)
    = cat_ip acc
      ++ (parsed_value parse <$> filter (λ i, parsed_type parse i = "ip") items)
  ∧ cat_cidr (foldl (categorize_step parse) acc items)
    = cat_cidr acc
      ++ (parsed_value parse <$> filter (λ i, parsed_type parse i = "cidr") items)
  ∧ cat_other (foldl (categorize_step parse) acc items)
    = cat_other acc
      ++ (parsed_value parse <$> filter (λ i, parsed_type parse i ∉ known_types) items).
Proof.
  revert acc. induction items as [|i items IH]; intros acc; simpl foldl.
  - rewrite !filter_nil, !fmap_nil, !app_nil_r. by split_and!.
  - destruct (IH (categorize_step parse acc i)) as (E1 & E2 & E3 & E4 & E5 & E6).
    destruct (categorize_step_lists acc i) as (S1 & S2 & S3 & S4 & S5 & S6).
    rewrite E1, E2, E3, E4, E5, E6, S1, S2, S3, S4, S5, S6.
    split_and!; rewrite filter_cons; repeat case_decide; try done;
      by rewrite fmap_cons, <- app_assoc.
Qed.

(** X22.  [categorize_scope_items] loses no item and duplicates none: each
    of the five typed lists holds the values of the items of its type, in
    their order, the list [other] holds the values of all the items of
    any other or of no type, and the six lists together have as many
    entries as there are items. *)
Theorem categorize_scope_items_complete (items : list string) :
  let c := categorize_scope_items parse items in
  let of_type (t : string) :=
    parsed_value parse <$> filter (λ i, parsed_type parse i = t) items in
  cat_wildcard c = of_type "wildcard"
  ∧ cat_domain c = of_type "domain"
  ∧ cat_subdomain c = of_type "subdomain"
  ∧ cat_ip c = of_type "ip"
  ∧ cat_cidr c = of_type "cidr"
  ∧ cat_other c
    = (parsed_value parse <$> filter (λ i, parsed_type parse i ∉ known_types) items)
  ∧ (length (cat_wildcard c) + length (cat_domain c) + length (cat_subdomain c)
     + length (cat_ip c) + length (cat_cidr c) + length (cat_other c)
     = length items)%nat.
Proof.
  intros c of_type. subst c of_type. unfold categorize_scope_items.
  destruct (categorize_foldl
              {| cat_wildcard := []; cat_domain := []; cat_subdomain := [];
                 cat_ip := []; cat_cidr := []; cat_other := [] |} items)
    as (E1 & E2 & E3 & E4 & E5 & E6).
  simpl in E1, E2, E3, E4, E5, E6.
  rewrite E1, E2, E3, E4, E5, E6. split_and!; try done.
  rewrite !length_fmap. clear.
  induction items as [|i items IH]; [done|].
  rewrite !filter_cons. unfold known_types in *.
  generalize dependent (parsed_type parse i). intros t.
  destruct (decide (t = "wildcard")) as [->|H1];
    [repeat case_decide; simplify_eq; try (exfalso; by_computation);
     simpl in *; try lia;
     exfalso; match goal with H : _ ∉ _ |- _ => apply H; by_computation end|].
  destruct (decide (t = "domain")) as [->|H2];
    [repeat case_decide; simplify_eq; simpl in *; try lia;
     exfalso; match goal with H : _ ∉ _ |- _ => apply H; by_computation end|].
  destruct (decide (t = "subdomain")) as [->|H3];
    [repeat case_decide; simplify_eq; simpl in *; try lia;
     exfalso; match goal with H : _ ∉ _ |- _ => apply H; by_computation end|].
  destruct (decide (t = "ip")) as [->|H4];
    [repeat case_decide; simplify_eq; simpl in *; try lia;
     exfalso; match goal with H : _ ∉ _ |- _ => apply H; by_computation end|].
  destruct (decide (t = "cidr")) as [->|H5];
    [repeat case_decide; simplify_eq; simpl in *; try lia;
     exfalso; match goal with H : _ ∉ _ |- _ => apply H; by_computation end|].
  rewrite (decide_True (P := t ∉ _)).
  - simpl. lia.
  - rewrite !not_elem_of_cons. split_and!; try done. apply not_elem_of_nil.
Qed.
End CategorizeFacts.

(** ** The summary of a comparison *)

Lemma join_length_pos (sep first : string) (rest : list string) :
  (0 < String.length first)%nat →
  (0 < String.length (PyStr.join sep (first :: rest)))%nat.
Proof.
  intros Hpos. destruct rest as [|q rest]; simpl; [done|].
  rewrite string_app_length. lia.
Qed.

(** X23.  For the comparison the body of [compare] builds, [summary] is
    the fixed no-change sentence when there is no change and a non-empty
    text otherwise. *)
Theorem summary_never_empty (checksum : ScopeData → string)
    (previous current : ScopeData) :
  let r := compare_body checksum previous current in
  (changes r = [] → summary r = "No scope changes detected")
  ∧ (changes r ≠ [] → summary r ≠ EmptyString)
  ∧ summary r ≠ EmptyString.
Proof.
  intros r.
  assert (Hnone : changes r = [] → summary r = "No scope changes detected").
  { intros Hnil. unfold summary. subst r. by rewrite has_changes_false. }
  assert (Hsome : changes r ≠ [] → summary r ≠ EmptyString).
  { intros Hne.
    assert (Hperm : changes r ≡ₚ additions r ++ removals r ++ modifications r).
    { subst r. unfold compare_body. case_bool_decide; simpl; [done|].
      apply classify_consistent. }
    assert (Hlen : (0 < String.length (summary r))%nat);
      [|intros Heq; rewrite Heq in Hlen; simpl in Hlen; lia].
    unfold summary. destruct (has_changes r); simpl;
      [|vm_compute; lia].
    destruct (additions r) as [|a la] eqn:Ea, (removals r) as [|b lb] eqn:Er,
      (modifications r) as [|c lc] eqn:Em; simpl;
      try (first [apply join_length_pos|idtac];
           rewrite ?string_app_length;
           change (String.length " added") with 6%nat;
           change (String.length " removed") with 8%nat;
           change (String.length " modified") with 9%nat; lia).
    exfalso. apply Hne. by apply Permutation_nil_r. }
  split_and!; [done|done|].
  destruct (changes r) eqn:E.
  - rewrite Hnone by done. discriminate.
  - by apply Hsome.
Qed.

(** ** Instances of the properties above *)

Lemma empty_in_scope_denies_all_witness :
  in_scope (mkScope [] ["test.example.com"]) = []
  ∧ ValidationResult.in_scope
      (validate (@new_ScopeValidator IPv4.lib (mkScope [] ["test.example.com"]))
         "example.com") = false.
Proof.
  split; [reflexivity|].
  exact (@empty_in_scope_denies_all IPv4.lib (mkScope [] ["test.example.com"])
           "example.com" eq_refl).
Defined.

Lemma wildcard_excludes_bare_domain_witness :
  PyStr.contains_char "*" "example.com" = false
  ∧ (String.length "example.com" ≤ String.length "example.com")%nat
  ∧ pattern_match (wildcard_regex ("*." +:+ "example.com")) "example.com" = false.
Proof.
  assert (H1 : PyStr.contains_char "*" "example.com" = false) by reflexivity.
  assert (H2 : (String.length "example.com" ≤ String.length "example.com")%nat)
    by (simpl; lia).
  split; [exact H1|]. split; [exact H2|].
  exact (wildcard_excludes_bare_domain "example.com" "example.com" H1 H2).
Defined.

Lemma wildcard_matches_suffix_witness :
  PyStr.contains_char "*" ".Example.com" = false
  ∧ PyStr.contains_char PyStr.newline "api" = false
  ∧ PyStr.lower ".example.COM" = PyStr.lower ".Example.com"
  ∧ pattern_match (wildcard_regex ("*" +:+ ".Example.com")) ("api" +:+ ".example.COM")
    = true.
Proof.
  assert (H1 : PyStr.contains_char "*" ".Example.com" = false) by reflexivity.
  assert (H2 : PyStr.contains_char PyStr.newline "api" = false) by reflexivity.
  assert (H3 : PyStr.lower ".example.COM" = PyStr.lower ".Example.com")
    by reflexivity.
  split; [exact H1|]. split; [exact H2|]. split; [exact H3|].
  exact (wildcard_matches_suffix ".Example.com" "api" ".example.COM" H1 H2 H3).
Defined.

Lemma rule_matching_ignores_case_witness :
  PyStr.contains_char "/" "*.Example.COM" = false
  ∧ @rule_matches IPv4.lib (PyStr.lower "*.Example.COM") "api.example.com"
    = @rule_matches IPv4.lib "*.Example.COM" "api.example.com".
Proof.
  assert (H1 : PyStr.contains_char "/" "*.Example.COM" = false) by reflexivity.
  split; [exact H1|].
  exact (proj1 (@rule_matching_ignores_case IPv4.lib "*.Example.COM"
                  "api.example.com" H1)).
Defined.

Lemma checksum_ignores_order_witness :
  let a := mkScope ["a.example.com"; "b.example.com"] ["x.example.com"] in
  let b := mkScope ["b.example.com"; "a.example.com"] ["x.example.com"] in
  in_scope a ≡ₚ in_scope b ∧ out_of_scope a ≡ₚ out_of_scope b
  ∧ calculate_checksum (λ s, s) a = calculate_checksum (λ s, s) b.
Proof.
  intros a b.
  assert (H1 : in_scope a ≡ₚ in_scope b) by apply Permutation_swap.
  assert (H2 : out_of_scope a ≡ₚ out_of_scope b) by reflexivity.
  split; [exact H1|]. split; [exact H2|].
  exact (checksum_ignores_order (λ s, s) a b H1 H2).
Defined.

Lemma move_to_out_of_scope_reported_once_witness :
  let prev := mkScope ["example.com"; "test.example.com"] [] in
  let curr := mkScope ["example.com"] ["test.example.com"] in
  let ck := calculate_checksum (λ s, s) in
  ck prev ≠ ck curr
  ∧ ("test.example.com" ∈ in_scope prev) ∧ ("test.example.com" ∉ out_of_scope prev)
  ∧ ("test.example.com" ∈ out_of_scope curr) ∧ ("test.example.com" ∉ in_scope curr)
  ∧ filter (λ c, ScopeChange.item c = "test.example.com")
      (changes (compare_body ck prev curr))
    = [moved "test.example.com" "out_of_scope" "in_scope" "out_of_scope"].
Proof.
  intros prev curr ck.
  assert (H0 : ck prev ≠ ck curr) by (vm_compute; discriminate).
  assert (H1 : "test.example.com" ∈ in_scope prev) by by_computation.
  assert (H2 : "test.example.com" ∉ out_of_scope prev) by by_computation.
  assert (H3 : "test.example.com" ∈ out_of_scope curr) by by_computation.
  assert (H4 : "test.example.com" ∉ in_scope curr) by by_computation.
  repeat (split; [assumption|]).
  exact (proj1 (move_to_out_of_scope_reported_once ck prev curr "test.example.com"
                  H0 H1 H2 H3 H4)).
Defined.

Lemma plain_changes_reported_once_witness :
  let prev := mkScope ["example.com"] [] in
  let curr := mkScope ["example.com"; "*.api.example.com"] [] in
  let ck := calculate_checksum (λ s, s) in
  ck prev ≠ ck curr
  ∧ ("*.api.example.com" ∈ in_scope curr)
  ∧ filter (λ c, ScopeChange.item c = "*.api.example.com")
      (changes (compare_body ck prev curr))
    = [plain ADDED "*.api.example.com" "in_scope"].
Proof.
  intros prev curr ck.
  assert (H0 : ck prev ≠ ck curr) by (vm_compute; discriminate).
  assert (H1 : "*.api.example.com" ∈ in_scope curr) by by_computation.
  split; [exact H0|]. split; [exact H1|].
  refine (proj1 (proj1 (plain_changes_reported_once ck prev curr "*.api.example.com"
                          H0) H1 _)).
  split_and!; by_computation.
Defined.

Lemma reported_field_really_changes_witness :
  "content_length" ∈ changed_fields (_detect_changes sample_asset (probe_length 1101))
  ∧ ∃ c, ("content_length", c) ∈ detect_fields
         ∧ has_key c (probe_length 1101) = true
         ∧ column_value c (set_attributes (probe_length 1101) sample_asset)
           ≠ column_value c sample_asset.
Proof.
  assert (H1 : "content_length"
               ∈ changed_fields (_detect_changes sample_asset (probe_length 1101)))
    by by_computation.
  split; [exact H1|].
  exact (reported_field_really_changes sample_asset (probe_length 1101)
           "content_length" H1).
Defined.
